(** * Media gallery (media-site/assets/app.js): a shallow embedding

    Definitions, in the order of the source file:
    - [JsString]: the string primitives the script relies on
      ([split('.').pop()], [toLowerCase], [trim], [includes], the two
      [replace] calls of the poster heuristic);
    - [Classifier]: [isMediaFile], [isImage], [isVideo], [rawUrl];
    - [Async]: asynchronous functions as terms of a small free monad whose
      suspension points are the [await]s of the script, and [run], which
      executes one function alone against a scripted network;
    - [Client]: [ghFetch];
    - [Browser]: [loadAndRenderDir], [showMediaForPath], [renderGallery]
      and the listener of the search box;
    - [EventLoop]: handlers interleaved at their suspension points;
    - [Spec], [Observations], [Samples]: the wording of the specification
      where it is compared with the code, the vocabulary of the statements,
      and concrete listings and networks;
    - [Tree]: [renderDirListing], the start-up function and the click
      listener of a folder node; [Gallery]: the card and the viewer built
      for an item; [Measures], [MoreSamples]: further vocabulary and data.
    The properties follow, one module per component.

    Modelling conventions.  A JavaScript string is a [string] of code
    units below 256 (the Latin-1 part of UTF-16); [toLowerCase] and [trim]
    are the restrictions of the ECMAScript functions to that range.  The two
    caches are plain objects used as dictionaries; they are [gmap]s here, and
    [m !! key] is the lookup of an own property.  For a key that names a
    member every object inherits ([JsObject.inherited]) and has no own
    entry, the tests [if (cache[key])] and [if (mediaCache[key])] of the
    script succeed on the inherited member; statements that rest on a
    missing entry therefore assume that the key is not such a name.  A
    response carries its status and what [res.json()] and [res.text()]
    resolve to, [None] when the promise rejects.  A listing is what
    [res.json()] yields for a directory; DOM construction is not modelled
    beyond what the gallery shows and which listing a tree container was
    rendered from. *)

From Stdlib Require Import Ascii String ZArith Bool List Lia Sorted.
From stdpp Require Import base gmap strings list.

Local Open Scope Z_scope.

(* ===================================================================== *)
(** ** String primitives *)
(* ===================================================================== *)

Module JsString.

Definition dot : ascii := "."%char.
Definition slash : ascii := "/"%char.

(** [s.split(c)] for a one-character separator: never the empty array. *)
Fixpoint split (sep : ascii) (s : string) : list string :=
  match s with
  | EmptyString => [EmptyString]
  | String c r =>
      if Ascii.eqb c sep then EmptyString :: split sep r
      else match split sep r with
           | h :: t => String c h :: t
           | [] => [String c EmptyString]
           end
  end.

(** [arr.pop()] read as a value: the last element of the array. *)
Definition pop (l : list string) : string := List.last l EmptyString.

(** [String.prototype.toLowerCase] on one code unit below 256:
    A-Z and the Latin-1 capitals U+00C0-U+00DE (U+00D7 excepted) move up
    by 32, everything else is fixed. *)
Definition lower_char (c : ascii) : ascii :=
  let n := N_of_ascii c in
  if ((65 <=? n) && (n <=? 90))%N then ascii_of_N (n + 32)
  else if ((192 <=? n) && (n <=? 222) && negb (n =? 215))%N
       then ascii_of_N (n + 32)
  else c.

Fixpoint toLowerCase (s : string) : string :=
  match s with
  | EmptyString => EmptyString
  | String c r => String (lower_char c) (toLowerCase r)
  end.

(** ECMAScript WhiteSpace and LineTerminator code units below 256. *)
Definition is_js_space (c : ascii) : bool :=
  let n := N_of_ascii c in
  (((9 <=? n) && (n <=? 13)) || (n =? 32) || (n =? 160))%N.

Fixpoint trimStart (s : string) : string :=
  match s with
  | EmptyString => EmptyString
  | String c r => if is_js_space c then trimStart r else s
  end.

(** Removes trailing white space: a character is kept when something
    non-blank follows it or it is itself non-blank. *)
Fixpoint trimEnd (s : string) : string :=
  match s with
  | EmptyString => EmptyString
  | String c r =>
      match trimEnd r with
      | EmptyString => if is_js_space c then EmptyString
                       else String c EmptyString
      | r' => String c r'
      end
  end.

Definition trim (s : string) : string := trimEnd (trimStart s).

(** [s.startsWith(p)] *)
Fixpoint startsWith (p s : string) : bool :=
  match p, s with
  | EmptyString, _ => true
  | String a p', String b s' => Ascii.eqb a b && startsWith p' s'
  | String _ _, EmptyString => false
  end.

(** [s.includes(q)] *)
Fixpoint includes (s q : string) : bool :=
  startsWith q s ||
  match s with
  | EmptyString => false
  | String _ r => includes r q
  end.

Fixpoint sliceFrom (n : nat) (s : string) : string :=
  match n, s with
  | O, _ => s
  | S n', String _ r => sliceFrom n' r
  | S _, EmptyString => EmptyString
  end.

(** [s.replace(pat, '')] with a string pattern: the first occurrence of
    [pat] is removed, a string without occurrence is returned as it is. *)
Fixpoint removeFirst (pat s : string) : string :=
  if startsWith pat s then sliceFrom (String.length pat) s
  else match s with
       | EmptyString => EmptyString
       | String c r => String c (removeFirst pat r)
       end.

(** The character class [[^/.]]. *)
Definition ext_char (c : ascii) : bool :=
  negb (Ascii.eqb c slash) && negb (Ascii.eqb c dot).

Fixpoint all_chars (p : ascii -> bool) (s : string) : bool :=
  match s with
  | EmptyString => true
  | String c r => p c && all_chars p r
  end.

(** Does [/\.[^/.]+$/] match [s] anchored at its first character? *)
Definition ext_suffix (s : string) : bool :=
  match s with
  | String c (String d r) =>
      Ascii.eqb c dot && all_chars ext_char (String d r)
  | _ => false
  end.

(** [s.replace(/\.[^/.]+$/, '')]: the leftmost match runs to the end of
    the input, so the result is what precedes it. *)
Fixpoint stripExt (s : string) : string :=
  if ext_suffix s then EmptyString
  else match s with
       | EmptyString => EmptyString
       | String c r => String c (stripExt r)
       end.

End JsString.

(* ===================================================================== *)
(** ** Plain objects used as dictionaries *)
(* ===================================================================== *)

Module JsObject.

(** The property names of [Object.prototype]: reading one of them from
    [{}] yields a function (or, for [__proto__], the prototype), which is
    truthy. *)
Definition prototypeMembers : list string :=
  ["constructor"; "hasOwnProperty"; "isPrototypeOf"; "propertyIsEnumerable";
   "toLocaleString"; "toString"; "valueOf"; "__proto__";
   "__defineGetter__"; "__defineSetter__"; "__lookupGetter__";
   "__lookupSetter__"].

Definition inherited (key : string) : bool :=
  existsb (String.eqb key) prototypeMembers.

End JsObject.

(* ===================================================================== *)
(** ** File classifier *)
(* ===================================================================== *)

Module Classifier.
Import JsString.

Definition OWNER : string := "DavidSciMeow".
Definition REPO : string := "DavidSciMeow".
Definition REF : string := "main".

(** [name.split('.').pop().toLowerCase()] *)
Definition extOf (name : string) : string :=
  toLowerCase (pop (split dot name)).

Definition str_in (x : string) (l : list string) : bool :=
  existsb (String.eqb x) l.

Definition image_exts : list string := ["png"; "jpg"; "jpeg"; "webp"; "gif"].
Definition video_exts : list string := ["mp4"; "webm"; "ogv"].

Definition isMediaFile (name : string) : bool :=
  str_in (extOf name)
    ["png"; "jpg"; "jpeg"; "webp"; "gif"; "mp4"; "webm"; "ogv"].

Definition isImage (name : string) : bool := str_in (extOf name) image_exts.

Definition isVideo (name : string) : bool := str_in (extOf name) video_exts.

Definition rawUrl (path : string) : string :=
  "https://raw.githubusercontent.com/" +:+ OWNER +:+ "/" +:+ REPO +:+ "/"
    +:+ REF +:+ "/" +:+ path.

(** The three-way classification the script computes from the predicates
    above: a name is treated as media when [isMediaFile] holds and is then
    labelled by [isVideo(name) ? 'video' : 'image']. *)
Inductive Kind := image | video | other.

Definition kindOf (name : string) : Kind :=
  if isMediaFile name then (if isVideo name then video else image)
  else other.

End Classifier.

(* ===================================================================== *)
(** ** Data model and page state *)
(* ===================================================================== *)

(** One element of a directory listing as the Contents API returns it.
    [type] is kept as the string the script compares with ['file'] and
    ['dir']; other values (['symlink'], ['submodule']) can occur. *)
Module Entry.
Record t := mk { name : string; path : string; type : string }.
End Entry.

Abbreviation Listing := (list Entry.t).

(** The object literal pushed on [media] (and the shape of the records of
    [assets/media.json]); [poster = None] is [poster: null]. *)
Module MediaItem.
Record t := mk {
  name : string;
  path : string;
  type : string;
  src : string;
  poster : option string
}.
End MediaItem.

Abbreviation MediaList := (list MediaItem.t).

(** What [galleryEl] shows. *)
Inductive GalleryView :=
| Untouched
| LoadingPlaceholder
| EmptyPlaceholder
| Cards (items : MediaList).

(** The module-level variables of the script and the two DOM nodes the
    resolver writes. *)
Record State := mkState {
  cache : gmap string Listing;
  mediaCache : gmap string MediaList;
  allVisibleMedia : MediaList;
  currentPathText : string;
  gallery : GalleryView
}.

Definition initialState : State :=
  {| cache := ∅; mediaCache := ∅; allVisibleMedia := [];
     currentPathText := ""; gallery := Untouched |}.

(* ===================================================================== *)
(** ** Asynchronous code as a free monad *)
(* ===================================================================== *)

Module Async.

(** An HTTP response as the script looks at it: [res.status] and the
    values [res.json()] and [res.text()] resolve to ([None] when the
    promise rejects: a body that is no JSON, a body that cannot be read). *)
Record Response := mkResponse {
  status : Z;
  json : option Listing;
  text : option string
}.

(** The promise returned by [fetch] either rejects or resolves. *)
Inductive FetchResult :=
| Rejected
| Responded (res : Response).

(** One constructor per effect of the script.  [Fetch], [FetchJson] and
    [SetTimeout] are the points where an async function is suspended; the
    others run synchronously. *)
Inductive Proc (A : Type) : Type :=
| Ret (a : A)
| Throw (msg : string)
| Read (k : State -> Proc A)
| Modify (f : State -> State) (k : Proc A)
| Fetch (url : string) (k : FetchResult -> Proc A)
| FetchJson (url : string) (k : option MediaList -> Proc A)
| SetTimeout (ms : Z) (k : Proc A)
| ConsoleError (code : Z) (body : string) (k : Proc A)
| RenderDirListing (items : Listing) (container : nat) (k : Proc A).

Arguments Ret {A} a.
Arguments Throw {A} msg.
Arguments Read {A} k.
Arguments Modify {A} f k.
Arguments Fetch {A} url k.
Arguments FetchJson {A} url k.
Arguments SetTimeout {A} ms k.
Arguments ConsoleError {A} code body k.
Arguments RenderDirListing {A} items container k.

Fixpoint bind {A B} (p : Proc A) (f : A -> Proc B) : Proc B :=
  match p with
  | Ret a => f a
  | Throw msg => Throw msg
  | Read k => Read (fun s => bind (k s) f)
  | Modify g k => Modify g (bind k f)
  | Fetch url k => Fetch url (fun r => bind (k r) f)
  | FetchJson url k => FetchJson url (fun r => bind (k r) f)
  | SetTimeout ms k => SetTimeout ms (bind k f)
  | ConsoleError c b k => ConsoleError c b (bind k f)
  | RenderDirListing l c k => RenderDirListing l c (bind k f)
  end.

(** What an observer of the page sees happen. *)
Inductive Event :=
| EvFetch (url : string)
| EvFetchJson (url : string)
| EvTimeout (ms : Z)
| EvConsoleError (code : Z) (body : string)
| EvRenderDir (items : Listing) (container : nat).

Definition isRequest (e : Event) : bool :=
  match e with
  | EvFetch _ | EvFetchJson _ => true
  | _ => false
  end.

(** The outside world of a sequential run: the answer to the [i]-th
    network request of the run depends on [i] and on the URL. *)
Record World := mkWorld {
  respond : nat -> string -> FetchResult;
  manifest : nat -> string -> option MediaList
}.

Inductive Outcome (A : Type) :=
| Returned (a : A)
| Threw (msg : string).
Arguments Returned {A} a.
Arguments Threw {A} msg.

Record Run (A : Type) := mkRun {
  outcome : Outcome A;
  final : State;
  trace : list Event;
  sent : nat
}.
Arguments mkRun {A}.
Arguments outcome {A}.
Arguments final {A}.
Arguments trace {A}.
Arguments sent {A}.

Definition logged {A} (e : Event) (r : Run A) : Run A :=
  mkRun (outcome r) (final r) (e :: trace r) (sent r).

(** Runs [p] alone to completion: [n] requests were sent before, timers
    fire, every request is answered by the world. *)
Fixpoint run {A} (w : World) (n : nat) (s : State) (p : Proc A) : Run A :=
  match p with
  | Ret a => mkRun (Returned a) s [] n
  | Throw msg => mkRun (Threw msg) s [] n
  | Read k => run w n s (k s)
  | Modify f k => run w n (f s) k
  | Fetch url k => logged (EvFetch url) (run w (S n) s (k (respond w n url)))
  | FetchJson url k =>
      logged (EvFetchJson url) (run w (S n) s (k (manifest w n url)))
  | SetTimeout ms k => logged (EvTimeout ms) (run w n s k)
  | ConsoleError c b k => logged (EvConsoleError c b) (run w n s k)
  | RenderDirListing l c k => logged (EvRenderDir l c) (run w n s k)
  end.

Definition requests (tr : list Event) : list Event := List.filter isRequest tr.

End Async.

Notation "'let*' x ':=' p 'in' q" := (Async.bind p (fun x => q))
  (at level 10, x name, p at level 100, q at level 200).

(* ===================================================================== *)
(** ** Remote listing client *)
(* ===================================================================== *)

Module Client.
Import Classifier Async.

Definition apiUrl (path : string) : string :=
  "https://api.github.com/repos/" +:+ OWNER +:+ "/" +:+ REPO
    +:+ "/contents/" +:+ path +:+ "?ref=" +:+ REF.

Definition unavailable : string := "GitHub API: rate limited or unavailable".

(** The body of [while (attempt < 5)].  [remaining] is [5 - attempt], the
    number of iterations the guard still allows; when it is exhausted the
    statement after the loop throws.  In the last branch the arguments of
    [console.error] are evaluated first, so a rejecting [res.text()] ends
    the function before anything is logged or returned. *)
Fixpoint ghFetchLoop (remaining : nat) (attempt : Z) (url : string)
  : Proc Listing :=
  match remaining with
  | O => Throw unavailable
  | S remaining' =>
      let attempt := attempt + 1 in
      Fetch url (fun r =>
        match r with
        | Rejected => Throw "TypeError: Failed to fetch"
        | Responded res =>
            if status res =? 200 then
              match json res with
              | Some items => Ret items
              | None => Throw "SyntaxError: Unexpected token"
              end
            else if (status res =? 403) || (status res =? 429) then
              let wait := 2 ^ attempt * 500 in
              SetTimeout wait (ghFetchLoop remaining' attempt url)
            else if status res =? 404 then Ret []
            else
              match text res with
              | Some body => ConsoleError (status res) body (Ret [])
              | None => Throw "TypeError: Failed to read the response body"
              end
        end)
  end.

Definition ghFetch (path : string) : Proc Listing :=
  ghFetchLoop 5 0 (apiUrl path).

End Client.

(* ===================================================================== *)
(** ** Tree loading, media resolution, gallery and search *)
(* ===================================================================== *)

Module Browser.
Import JsString Classifier Async Client.

Definition setCache (c : gmap string Listing) (s : State) : State :=
  mkState c (mediaCache s) (allVisibleMedia s) (currentPathText s) (gallery s).

Definition setMediaCache (m : gmap string MediaList) (s : State) : State :=
  mkState (cache s) m (allVisibleMedia s) (currentPathText s) (gallery s).

(** [loadAndRenderDir(path, container)]; the DOM work of
    [renderDirListing] is one opaque event.  [cache s !! key] reads an own
    property: the [None] branch is the script's for every key but the
    names of [JsObject.prototypeMembers]. *)
Definition loadAndRenderDir (path : string) (container : nat) : Proc unit :=
  let key := path in
  Read (fun s =>
    match cache s !! key with
    | Some items => RenderDirListing items container (Ret tt)
    | None =>
        let* items := ghFetch path in
        Modify (fun s => setCache (<[key := items]> (cache s)) s)
          (RenderDirListing items container (Ret tt))
    end).

(** The four paths tried for [it], in the order of the array literal. *)
Definition posterCandidates (it : Entry.t) : list string :=
  List.map (fun ext =>
         let base := stripExt (Entry.name it) in
         removeFirst (Entry.name it) (Entry.path it) +:+ base +:+ "." +:+ ext)
      ["jpg"; "jpeg"; "webp"; "png"].

(** [for (const p of posterCandidates) if (items.find(x => x.path === p))
    { poster = rawUrl(p); break; }] *)
Fixpoint findPoster (items : Listing) (cands : list string) : option string :=
  match cands with
  | [] => None
  | p :: rest =>
      if existsb (fun x => String.eqb (Entry.path x) p) items
      then Some (rawUrl p)
      else findPoster items rest
  end.

Definition mimetype (name : string) : string :=
  if isVideo name then "video" else "image".

Definition isMediaEntry (it : Entry.t) : bool :=
  String.eqb (Entry.type it) "file" && isMediaFile (Entry.name it).

Definition directItem (items : Listing) (it : Entry.t) : MediaItem.t :=
  {| MediaItem.name := Entry.name it;
     MediaItem.path := Entry.path it;
     MediaItem.type := mimetype (Entry.name it);
     MediaItem.src := rawUrl (Entry.path it);
     MediaItem.poster := findPoster items (posterCandidates it) |}.

Definition subItem (s : Entry.t) : MediaItem.t :=
  {| MediaItem.name := Entry.name s;
     MediaItem.path := Entry.path s;
     MediaItem.type := mimetype (Entry.name s);
     MediaItem.src := rawUrl (Entry.path s);
     MediaItem.poster := None |}.

(** First loop of [showMediaForPath]: [media] grows by [push]. *)
Definition scanDirect (items : Listing) : MediaList :=
  fold_left (fun media it =>
               if isMediaEntry it then media ++ [directItem items it]
               else media)
            items [].

(** Inner loop over one subfolder listing. *)
Definition scanSub (sub : Listing) (media : MediaList) : MediaList :=
  fold_left (fun media s =>
               if isMediaEntry s then media ++ [subItem s] else media)
            sub media.

(** Second loop: one [ghFetch] per entry of type ['dir'], in array order. *)
Fixpoint scanSubfolders (items : Listing) (media : MediaList)
  : Proc MediaList :=
  match items with
  | [] => Ret media
  | it :: rest =>
      if String.eqb (Entry.type it) "dir" then
        let* sub := ghFetch (Entry.path it) in
        scanSubfolders rest (scanSub sub media)
      else scanSubfolders rest media
  end.

Definition manifestUrl : string := "assets/media.json".

(** [if (media.length === 0) { try { ... media.push(...demo) } catch {} }] *)
Definition loadFallback (media : MediaList) : Proc MediaList :=
  match media with
  | [] =>
      FetchJson manifestUrl (fun r =>
        match r with
        | Some demo => Ret (media ++ demo)
        | None => Ret media
        end)
  | _ :: _ => Ret media
  end.

(** Everything between the cache test and the cache write. *)
Definition collectMedia (path : string) : Proc MediaList :=
  let* items := ghFetch path in
  let* media := scanSubfolders items (scanDirect items) in
  loadFallback media.

Definition renderGallery (list : MediaList) (s : State) : State :=
  mkState (cache s) (mediaCache s) list (currentPathText s)
    (match list with
     | [] => EmptyPlaceholder
     | _ :: _ => Cards list
     end).

Definition announce (path : string) (s : State) : State :=
  mkState (cache s) (mediaCache s) (allVisibleMedia s) ("/" +:+ path)
    LoadingPlaceholder.

(** The two statements after the fallback. *)
Definition storeAndRender (key : string) (media : MediaList) : Proc unit :=
  Modify (fun s => setMediaCache (<[key := media]> (mediaCache s)) s)
    (Modify (renderGallery media) (Ret tt)).

(** [mediaCache s !! key] reads an own property, as in
    [loadAndRenderDir]. *)
Definition showMediaForPath (path : string) : Proc unit :=
  Modify (announce path)
    (let key := path in
     Read (fun s =>
       match mediaCache s !! key with
       | Some media => Modify (renderGallery media) (Ret tt)
       | None =>
           let* media := collectMedia path in
           storeAndRender key media
       end)).

(** The [input] listener of [globalSearch]; [value] is [e.target.value]. *)
Definition onSearchInput (value : string) (s : State) : State :=
  let q := toLowerCase (trim value) in
  match q with
  | EmptyString => renderGallery (allVisibleMedia s) s
  | String _ _ =>
      let filtered :=
        List.filter (fun item => includes (toLowerCase (MediaItem.name item)) q)
               (allVisibleMedia s) in
      renderGallery filtered s
  end.

End Browser.

(* ===================================================================== *)
(** ** The event loop: interleaved handlers *)
(* ===================================================================== *)

(** The page is single-threaded: a handler runs until its next [await],
    and a suspended async function continues when what it awaits settles.
    Nothing orders the settlements of different functions. *)
Module EventLoop.
Import Async Browser.

(** Runs the synchronous prefix of [p] and stops at the next suspension
    point (the request is sent, the timer armed) or when [p] has settled. *)
Fixpoint advance {A} (s : State) (p : Proc A) : State * Proc A * list Event :=
  match p with
  | Read k => advance s (k s)
  | Modify f k => advance (f s) k
  | ConsoleError c b k =>
      let '(s', p', ev) := advance s k in (s', p', EvConsoleError c b :: ev)
  | RenderDirListing l c k =>
      let '(s', p', ev) := advance s k in (s', p', EvRenderDir l c :: ev)
  | Fetch url _ => (s, p, [EvFetch url])
  | FetchJson url _ => (s, p, [EvFetchJson url])
  | SetTimeout ms _ => (s, p, [EvTimeout ms])
  | Ret _ | Throw _ => (s, p, [])
  end.

Inductive Answer :=
| AFetch (r : FetchResult)
| AJson (r : option MediaList)
| ATimer.

(** The continuation of a suspended function once its awaited value is
    there; an answer of the wrong kind, or for a settled function, is not
    an event that can happen. *)
Definition resume {A} (p : Proc A) (a : Answer) : option (Proc A) :=
  match p, a with
  | Fetch _ k, AFetch r => Some (k r)
  | FetchJson _ k, AJson r => Some (k r)
  | SetTimeout _ k, ATimer => Some k
  | _, _ => None
  end.

Record Config := mkConfig {
  st : State;
  pool : list (Proc unit);
  log : list Event
}.

Inductive Input :=
| ClickFile (path : string)
| ExpandFolder (path : string) (container : nat)
| TypeSearch (value : string)
| Settle (task : nat) (a : Answer).

Definition spawn (c : Config) (p : Proc unit) : Config :=
  let '(s', t, ev) := advance (st c) p in
  mkConfig s' (pool c ++ [t]) (log c ++ ev).

Definition step (c : Config) (i : Input) : Config :=
  match i with
  | ClickFile path => spawn c (showMediaForPath path)
  | ExpandFolder path container => spawn c (loadAndRenderDir path container)
  | TypeSearch value => mkConfig (onSearchInput value (st c)) (pool c) (log c)
  | Settle i a =>
      match pool c !! i with
      | Some p =>
          match resume p a with
          | Some q =>
              let '(s', t, ev) := advance (st c) q in
              mkConfig s' (<[i := t]> (pool c)) (log c ++ ev)
          | None => c
          end
      | None => c
      end
  end.

Definition exec (c : Config) (inputs : list Input) : Config :=
  fold_left step inputs c.

Definition boot (s : State) : Config := mkConfig s [] [].

(** Task [i] has run to its end without throwing. *)
Definition completed (c : Config) (i : nat) : Prop :=
  pool c !! i = Some (Ret tt).

End EventLoop.

(* ===================================================================== *)
(** ** The specification's wording, for comparison *)
(* ===================================================================== *)

Module Spec.
Import JsString Classifier.

(** The substring after the last ['.'] of [name]; a name without ['.'] has
    none. *)
Fixpoint afterLastDot (name : string) : option string :=
  match name with
  | EmptyString => None
  | String c r =>
      match afterLastDot r with
      | Some e => Some e
      | None => if Ascii.eqb c dot then Some r else None
      end
  end.

(** [image] for png, jpg, jpeg, webp, gif; [video] for mp4, webm, ogv;
    [other] otherwise, after lowercasing. *)
Definition classify (ext : string) : Kind :=
  if str_in (toLowerCase ext) image_exts then image
  else if str_in (toLowerCase ext) video_exts then video
  else other.

(** [kindOf] as section 4.3 words it: classify the extension, and a name
    that has no extension is [other]. *)
Definition kindOfSpec (name : string) : Kind :=
  match afterLastDot name with
  | Some e => classify e
  | None => other
  end.

(** A media file name, in the words of sections 3 and 4.3: its extension
    is one of the eight media extensions.  The extension of a name that
    has no ['.'] is taken to be the whole name, as the classifier of the
    script does. *)
Definition mediaName (name : string) : bool :=
  match classify (from_option id name (afterLastDot name)) with
  | other => false
  | _ => true
  end.

(** No ['.'] occurs in [s]. *)
Definition dotless (s : string) : Prop :=
  all_chars (fun c => negb (Ascii.eqb c dot)) s = true.

End Spec.

(* ===================================================================== *)
(** ** Vocabulary for statements about runs *)
(* ===================================================================== *)

Module Observations.
Import Async Client.

(** The response reports rate limiting (status 403 or 429). *)
Definition isThrottled (r : FetchResult) : bool :=
  match r with
  | Responded res => (status res =? 403) || (status res =? 429)
  | Rejected => false
  end.

(** What [k] throttled attempts in a row look like from outside, after
    [attempt] attempts were already made: a request, then a pause. *)
Fixpoint backoff (url : string) (attempt : Z) (k : nat) : list Event :=
  match k with
  | O => []
  | S k' =>
      EvFetch url :: EvTimeout (2 ^ (attempt + 1) * 500)
        :: backoff url (attempt + 1) k'
  end.

Definition prefixed {A} (evs : list Event) (r : Run A) : Run A :=
  mkRun (outcome r) (final r) (evs ++ trace r) (sent r).

(** Number of network requests of a run. *)
Definition requestCount {A} (r : Run A) : nat := length (requests (trace r)).

(** Some entry of the listing, of whatever type, has path [p]. *)
Definition listed (items : Listing) (p : string) : Prop :=
  exists x, In x items /\ Entry.path x = p.

(** How the poster of a direct item relates to its candidate paths: it is
    the URL of the first listed candidate, and absent when none is. *)
Definition posterRule (items : Listing) (cands : list string)
  (poster : option string) : Prop :=
  match poster with
  | None => forall p, In p cands -> ~ listed items p
  | Some u =>
      exists before p after,
        cands = before ++ p :: after /\ u = Classifier.rawUrl p /\
        listed items p /\ forall q, In q before -> ~ listed items q
  end.

(** [p] neither reads nor writes the page state. *)
Inductive Stateless {A : Type} : Proc A -> Prop :=
| sl_ret a : Stateless (Ret a)
| sl_throw msg : Stateless (Throw msg)
| sl_fetch url k : (forall r, Stateless (k r)) -> Stateless (Fetch url k)
| sl_fetch_json url k :
    (forall r, Stateless (k r)) -> Stateless (FetchJson url k)
| sl_timeout ms k : Stateless k -> Stateless (SetTimeout ms k)
| sl_console c b k : Stateless k -> Stateless (ConsoleError c b k)
| sl_render l c k : Stateless k -> Stateless (RenderDirListing l c k).

(** The repository behind the API is the fixed tree [tree], and every
    listing request succeeds at once. *)
Definition serves (w : World) (tree : string -> Listing) : Prop :=
  forall i path, exists res,
    respond w i (apiUrl path) = Responded res /\
    status res = 200 /\ json res = Some (tree path).

(** More generally: every listing call returns the listing [tree] has
    for its path, after however many retries, and an absent or failing
    directory counts as the empty listing. *)
Definition answers (w : World) (tree : string -> Listing) : Prop :=
  forall n s path, outcome (run w n s (ghFetch path)) = Returned (tree path).

Definition isDirEntry (it : Entry.t) : bool :=
  String.eqb (Entry.type it) "dir".

(** The immediate subdirectories of [path], in listing order. *)
Definition subdirs (tree : string -> Listing) (path : string) : Listing :=
  List.filter isDirEntry (tree path).

(** An entry of type file with a media file name. *)
Definition isMediaFileEntry (it : Entry.t) : bool :=
  String.eqb (Entry.type it) "file" && Spec.mediaName (Entry.name it).

(** The items for the media files directly in [path], in listing order. *)
Definition directChildren (tree : string -> Listing) (path : string)
  : MediaList :=
  List.map (Browser.directItem (tree path))
    (List.filter isMediaFileEntry (tree path)).

(** The items for the media files directly in each immediate
    subdirectory of [path], grouped by subdirectory. *)
Definition nestedChildren (tree : string -> Listing) (path : string)
  : MediaList :=
  flat_map (fun d => List.map Browser.subItem
                       (List.filter isMediaFileEntry (tree (Entry.path d))))
           (subdirs tree path).

(** The listing requests of one resolution of [path]. *)
Definition listingRequests (tree : string -> Listing) (path : string)
  : list Event :=
  EvFetch (apiUrl path)
    :: List.map (fun d => EvFetch (apiUrl (Entry.path d))) (subdirs tree path).

(** [p] waits for a response or a timer. *)
Definition suspended {A} (p : Proc A) : bool :=
  match p with
  | Fetch _ _ | FetchJson _ _ | SetTimeout _ _ => true
  | _ => false
  end.

(** A resolution of [path] that passed the media-cache test and has not
    reached the cache write yet. *)
Definition inflight (path : string) (t : Proc unit) : Prop :=
  exists q : Proc MediaList,
    Stateless q /\ suspended q = true /\
    t = Async.bind q (Browser.storeAndRender path).

(** A task of the pool as a resolution of [path] can leave it. *)
Definition resolving (path : string) (t : Proc unit) : Prop :=
  inflight path t \/ t = Ret tt \/ exists msg, t = Throw msg.

(** What the gallery shows once [media] was rendered. *)
Definition view (media : MediaList) : GalleryView :=
  match media with
  | [] => EmptyPlaceholder
  | _ :: _ => Cards media
  end.

(** The state a finishing resolution of [path] with result [media]
    leaves. *)
Definition published (path : string) (media : MediaList) (s : State) : State :=
  Browser.renderGallery media
    (Browser.setMediaCache (<[path := media]> (mediaCache s)) s).

(** Two resolutions were started, for [p1] and then for [p2], and nothing
    but settlements happened since. *)
Definition twoResolutions (p1 p2 : string) (c : EventLoop.Config) : Prop :=
  exists t0 t1,
    EventLoop.pool c = [t0; t1] /\ resolving p1 t0 /\ resolving p2 t1 /\
    currentPathText (EventLoop.st c) = "/" +:+ p2.

(** The settlements of a schedule, as inputs of the loop. *)
Definition settlements (l : list (nat * EventLoop.Answer))
  : list EventLoop.Input :=
  List.map (fun x => EventLoop.Settle (fst x) (snd x)) l.

End Observations.

(* ===================================================================== *)
(** ** Sample data used by the examples *)
(* ===================================================================== *)

Module Samples.
Import Classifier Async Client Browser EventLoop.

Definition file (name path : string) : Entry.t := Entry.mk name path "file".
Definition dir (name path : string) : Entry.t := Entry.mk name path "dir".

Definition throttle : FetchResult :=
  Responded (mkResponse 403 None (Some "API rate limit exceeded")).

Definition ok (items : Listing) : FetchResult :=
  Responded (mkResponse 200 (Some items) (Some "")).

Definition notFound : FetchResult :=
  Responded (mkResponse 404 None (Some "Not Found")).

Definition serverError : FetchResult :=
  Responded (mkResponse 500 None (Some "Internal Server Error")).

Definition oneImage : Listing := [file "a.png" "a.png"].

(** A world that throttles the first [k] requests and then answers [r]. *)
Definition throttlingWorld (k : nat) (r : FetchResult) : World :=
  mkWorld (fun i _ => if (i <? k)%nat then throttle else r) (fun _ _ => None).

Definition clipWithPoster : Listing :=
  [file "clip.mp4" "clip.mp4"; file "clip.jpg" "clip.jpg"].

Definition clipAlone : Listing := [file "clip.mp4" "clip.mp4"].

(** A video, a still next to it, and a folder that happens to be called
    like the last poster candidate. *)
Definition clipWithFolder : Listing :=
  [file "clip.mp4" "clip.mp4"; file "clip.jpg" "clip.jpg";
   dir "clip.png" "clip.png"].

Definition clipWithFolderOnly : Listing :=
  [file "clip.mp4" "clip.mp4"; dir "clip.jpg" "clip.jpg"].

Definition stillOnly : Listing := [file "a.jpg" "a.jpg"].

(** The tree of section 8, by request URL: [a.png] at the root next to the
    folder [sub], which holds [b.png] and a deeper folder. *)
Definition twoLevels (url : string) : Listing :=
  if String.eqb url (apiUrl "") then [file "a.png" "a.png"; dir "sub" "sub"]
  else if String.eqb url (apiUrl "sub")
       then [file "b.png" "sub/b.png"; dir "deep" "sub/deep"]
  else if String.eqb url (apiUrl "sub/deep")
       then [file "c.png" "sub/deep/c.png"]
  else [].

(** A folder with a text file and an empty subfolder: no media. *)
Definition noMedia (url : string) : Listing :=
  if String.eqb url (apiUrl "")
  then [file "notes.txt" "notes.txt"; dir "empty" "empty"]
  else [].

Definition demoItem : MediaItem.t :=
  MediaItem.mk "demo.mp4" "demo.mp4" "video" "assets/demo.mp4" None.

(** The world that answers a listing request by looking its URL up in
    [byUrl], and the manifest request with [demo]. *)
Definition staticWorld (byUrl : string -> Listing) (demo : option MediaList)
  : World :=
  mkWorld (fun _ url => ok (byUrl url)) (fun _ _ => demo).

(** The repository tree such a world serves. *)
Definition treeOf (byUrl : string -> Listing) (path : string) : Listing :=
  byUrl (apiUrl path).

(** The same repository behind an API that throttles every other
    request. *)
Definition flakyWorld (byUrl : string -> Listing) : World :=
  mkWorld (fun i url => if Nat.even i then throttle else ok (byUrl url))
          (fun _ _ => None).

(** The page after the tree pane has loaded the root folder. *)
Definition rootListed : State :=
  final (run (staticWorld twoLevels None) 0 initialState
           (loadAndRenderDir "" 0)).

Definition onlyB : Listing := [file "b.png" "b.png"].

(** Two selections in a row; the answer for the second arrives first. *)
Definition overtaking : list Input :=
  [ClickFile "p1"; ClickFile "p2";
   Settle 1 (AFetch (ok onlyB)); Settle 0 (AFetch (ok oneImage))].

Definition cat : MediaItem.t :=
  MediaItem.mk "cat.png" "cat.png" "image" (rawUrl "cat.png") None.

Definition dog : MediaItem.t :=
  MediaItem.mk "dog.mp4" "dog.mp4" "video" (rawUrl "dog.mp4") None.

End Samples.

(* ===================================================================== *)
(** ** The tree pane *)
(* ===================================================================== *)

(** [renderDirListing], the root tree built by the start-up function and
    the click listener of a folder node.  [localeCompare] is the built-in
    string comparison the two sorts call; it is a parameter here.
    [Array.prototype.sort] is the stable sort every engine implements for a
    consistent comparator. *)
Module Tree.
Import Classifier Async Client Browser Observations.

(** What [makeFolderNode] and [makeFileNode] return, with the one style
    [renderDirListing] may set on a file node; [RootHeader] and
    [RootFiles] are the two extra children the start-up function gives
    [treeEl]. *)
Inductive TreeNode :=
| FolderNode (name path : string)
| FileNode (item : Entry.t) (dimmed : bool)
| RootHeader
| RootFiles (files : Listing).

(** The text of the right-hand label of a folder node. *)
Inductive ToggleLabel := SayExpand | SayCollapse.

(** The mutable part of a folder node: [aria-expanded], the label,
    whether the children container is displayed, and its child nodes. *)
Record FolderState := mkFolder {
  ariaExpanded : bool;
  label : ToggleLabel;
  childrenShown : bool;
  childNodes : list TreeNode
}.

(** A folder node as [makeFolderNode] returns it. *)
Definition freshFolder : FolderState := mkFolder false SayExpand false [].

Definition isFileEntry (it : Entry.t) : bool :=
  String.eqb (Entry.type it) "file".

(** The listing of the last [renderDirListing] call of a trace. *)
Fixpoint renderedListing (tr : list Event) : option Listing :=
  match tr with
  | [] => None
  | EvRenderDir items _ :: rest =>
      match renderedListing rest with
      | Some later => Some later
      | None => Some items
      end
  | _ :: rest => renderedListing rest
  end.

(** What one click on a folder node did. *)
Record Click := mkClick {
  node : FolderState;
  page : State;
  seen : list Event;
  counter : nat;
  failure : option string
}.

Section Sorting.
Variable localeCompare : string -> string -> Z.

(** [(a, b) => a.name.localeCompare(b.name)] *)
Definition byName (a b : Entry.t) : Z :=
  localeCompare (Entry.name a) (Entry.name b).

Fixpoint insertByName (x : Entry.t) (sorted : Listing) : Listing :=
  match sorted with
  | [] => [x]
  | y :: rest =>
      if 0 <? byName x y then y :: insertByName x rest else x :: sorted
  end.

Fixpoint sortByName (l : Listing) : Listing :=
  match l with
  | [] => []
  | x :: rest => insertByName x (sortByName rest)
  end.

(** The children [renderDirListing(items, container)] leaves in the
    container. *)
Definition renderDirListing (items : Listing) : list TreeNode :=
  let dirs := sortByName (List.filter isDirEntry items) in
  let files := sortByName (List.filter isFileEntry items) in
  List.map (fun d => FolderNode (Entry.name d) (Entry.path d)) dirs ++
  List.map (fun f => FileNode f (negb (isMediaFile (Entry.name f)))) files.

(** The children the start-up function gives [treeEl] once the root
    listing is there. *)
Definition rootTree (rootItems : Listing) : list TreeNode :=
  let dirs := sortByName (List.filter isDirEntry rootItems) in
  let files := sortByName (List.filter isFileEntry rootItems) in
  List.map (fun d => FolderNode (Entry.name d) (Entry.path d)) dirs ++
  match files with
  | [] => []
  | _ :: _ => [RootHeader; RootFiles files]
  end.

(** [(async function init(){ ... })()] *)
Definition init : Proc (list TreeNode) :=
  let* rootItems := ghFetch "" in
  Ret (rootTree rootItems).

(** The click listener of the folder node for [path], run to its end
    without interference. *)
Definition clickFolder (path : string) (container : nat)
  (w : World) (n : nat) (s : State) (v : FolderState) : Click :=
  if ariaExpanded v then
    mkClick (mkFolder false SayExpand false (childNodes v)) s [] n None
  else
    let opened := mkFolder true SayCollapse true (childNodes v) in
    match childNodes v with
    | _ :: _ => mkClick opened s [] n None
    | [] =>
        let r := run w n s (loadAndRenderDir path container) in
        mkClick
          (match renderedListing (trace r) with
           | Some items =>
               mkFolder true SayCollapse true (renderDirListing items)
           | None => opened
           end)
          (final r) (trace r) (sent r)
          (match outcome r with
           | Returned _ => None
           | Threw msg => Some msg
           end)
    end.

(** [k] clicks on the same folder node, one after the other. *)
Fixpoint clicksFolder (path : string) (container : nat) (w : World)
  (k : nat) (n : nat) (s : State) (v : FolderState)
  : FolderState * State * list Event :=
  match k with
  | O => (v, s, [])
  | S k' =>
      let c := clickFolder path container w n s v in
      let '(v', s', evs) :=
        clicksFolder path container w k' (counter c) (page c) (node c) in
      (v', s', seen c ++ evs)
  end.

End Sorting.

End Tree.

(* ===================================================================== *)
(** ** Cards and the modal viewer *)
(* ===================================================================== *)

Module Gallery.
Import Classifier Browser.

(** JavaScript truthiness of [item.poster]: [null] and the empty string
    are falsy. *)
Definition truthy (o : option string) : bool :=
  match o with
  | Some (String _ _) => true
  | _ => false
  end.

Definition isVideoItem (item : MediaItem.t) : bool :=
  String.eqb (MediaItem.type item) "video".

(** The card [renderGallery] builds for one item. *)
Record Card := mkCard {
  thumbSrc : string;
  thumbAlt : string;
  cardTitle : string;
  badge : string
}.

Definition cardOf (item : MediaItem.t) : Card :=
  {| thumbSrc :=
       if isVideoItem item then
         (if truthy (MediaItem.poster item)
          then default EmptyString (MediaItem.poster item)
          else MediaItem.src item)
       else MediaItem.src item;
     thumbAlt := MediaItem.name item;
     cardTitle := MediaItem.name item;
     badge := if isVideoItem item then "VIDEO" else "IMAGE" |}.

(** The element [openModal] puts in [modalContent]. *)
Inductive Viewer :=
| VideoPlayer (source : string) (poster : option string)
| ImageView (source alt : string).

Definition viewerOf (item : MediaItem.t) : Viewer :=
  if isVideoItem item then
    VideoPlayer (MediaItem.src item)
      (if truthy (MediaItem.poster item) then MediaItem.poster item else None)
  else ImageView (MediaItem.src item) (MediaItem.name item).

End Gallery.

(* ===================================================================== *)
(** ** Further vocabulary *)
(* ===================================================================== *)

Module Measures.
Import Async Client Browser EventLoop Observations.

(** The milliseconds a run spent in timers. *)
Fixpoint totalWait (tr : list Event) : Z :=
  match tr with
  | [] => 0
  | EvTimeout ms :: rest => ms + totalWait rest
  | _ :: rest => totalWait rest
  end.

(** The pauses the loop of [ghFetch] can still make. *)
Fixpoint waitBudget (remaining : nat) (attempt : Z) : Z :=
  match remaining with
  | O => 0
  | S remaining' =>
      2 ^ (attempt + 1) * 500 + waitBudget remaining' (attempt + 1)
  end.

(** A successful response whose body is the listing [items]. *)
Definition success (r : FetchResult) (items : Listing) : Prop :=
  exists res, r = Responded res /\ status res = 200 /\ json res = Some items.

(** The continuation of [loadAndRenderDir] after its listing call. *)
Definition listingStored (key : string) (container : nat) (items : Listing)
  : Proc unit :=
  Modify (fun s => setCache (<[key := items]> (cache s)) s)
    (RenderDirListing items container (Ret tt)).

(** A [loadAndRenderDir] call that waits for its listing. *)
Definition loading (path : string) (container : nat) (t : Proc unit) : Prop :=
  exists q : Proc Listing,
    Stateless q /\ suspended q = true /\
    t = Async.bind q (listingStored path container).

(** The tasks the handlers of the page leave in the pool. *)
Definition tame (t : Proc unit) : Prop :=
  t = Ret tt \/ (exists msg, t = Throw msg) \/
  (exists path, inflight path t) \/
  (exists path container, loading path container t).

(** The four ways the script writes the page state. *)
Inductive update : State -> State -> Prop :=
| up_announce path s : update s (announce path s)
| up_render media s : update s (renderGallery media s)
| up_media path media s :
    update s (setMediaCache (<[path := media]> (mediaCache s)) s)
| up_listing path items s :
    update s (setCache (<[path := items]> (cache s)) s).

(** The gallery shows the list the search box filters, unless it was
    never written or shows the loading placeholder. *)
Definition galleryInSync (s : State) : Prop :=
  gallery s = Untouched \/ gallery s = LoadingPlaceholder \/
  gallery s = view (allVisibleMedia s).

(** The search box after a series of keystrokes. *)
Definition typed (values : list string) (s : State) : State :=
  fold_left (fun s v => onSearchInput v s) values s.

(** The path the input clicks on or expands, if any, is not the name of
    an inherited member of the cache objects. *)
Definition plainInput (i : Input) : bool :=
  match i with
  | ClickFile path => negb (JsObject.inherited path)
  | ExpandFolder path _ => negb (JsObject.inherited path)
  | _ => true
  end.

(** The input is a click on a file node. *)
Definition isSelection (i : Input) : bool :=
  match i with
  | ClickFile _ => true
  | _ => false
  end.

(** The path label after input [i] arrived with label [before]. *)
Definition labelAfter (i : Input) (before : string) : string :=
  match i with
  | ClickFile path => "/" +:+ path
  | _ => before
  end.

(** A consistent comparator in the sense of [Array.prototype.sort]. *)
Definition consistent (compare : string -> string -> Z) : Prop :=
  (forall a, compare a a = 0) /\
  (forall a b, compare a b < 0 <-> 0 < compare b a) /\
  (forall a b c, compare a b <= 0 -> compare b c <= 0 -> compare a c <= 0).

(** Entry [a] does not come after entry [b]. *)
Definition notAfter (compare : string -> string -> Z) (a b : Entry.t) : Prop :=
  compare (Entry.name a) (Entry.name b) <= 0.

(** The tree nodes [renderDirListing] makes of a directory and of a
    file entry. *)
Definition folderNodeOf (d : Entry.t) : Tree.TreeNode :=
  Tree.FolderNode (Entry.name d) (Entry.path d).

Definition fileNodeOf (f : Entry.t) : Tree.TreeNode :=
  Tree.FileNode f (negb (Classifier.isMediaFile (Entry.name f))).

(** The first entry of type ['dir'] of a listing splits it so. *)
Definition firstDir (items before : Listing) (d : Entry.t) (after : Listing)
  : Prop :=
  items = before ++ d :: after /\ isDirEntry d = true /\
  forall x, In x before -> isDirEntry x = false.

End Measures.

(* ===================================================================== *)
(** ** More sample data *)
(* ===================================================================== *)

Module MoreSamples.
Import Classifier Async Client Browser EventLoop Samples Tree.

(** A comparison that orders names by length. *)
Definition byLength (a b : string) : Z :=
  Z.of_nat (String.length a) - Z.of_nat (String.length b).

(** The network is down. *)
Definition offline : World := mkWorld (fun _ _ => Rejected) (fun _ _ => None).

(** A success status with a body that is not JSON. *)
Definition garbled : FetchResult :=
  Responded (mkResponse 200 None (Some "<html>")).

(** A server error whose body cannot be read. *)
Definition unreadable : FetchResult := Responded (mkResponse 502 None None).

(** Three levels with files that are no media mixed in: [a.png] and
    [notes.txt] at the root next to the folder [sub], which holds [b.png],
    [readme.md] and a deeper folder with [c.png]. *)
Definition mixedTree (url : string) : Listing :=
  if String.eqb url (apiUrl "")
  then [file "a.png" "a.png"; file "notes.txt" "notes.txt"; dir "sub" "sub"]
  else if String.eqb url (apiUrl "sub")
       then [file "readme.md" "sub/readme.md"; file "b.png" "sub/b.png";
             dir "deep" "sub/deep"]
  else if String.eqb url (apiUrl "sub/deep")
       then [file "c.png" "sub/deep/c.png"]
  else [].

(** The root listing arrives, the listing of [sub] is throttled for
    good. *)
Definition subThrottled : World :=
  mkWorld (fun i url => if (i =? 0)%nat then ok (twoLevels url) else throttle)
          (fun _ _ => None).

Definition mixedFolder : Listing :=
  [file "notes.txt" "d/notes.txt"; dir "zz" "d/zz"; file "b.png" "d/b.png";
   Entry.mk "link" "d/link" "symlink"; dir "a" "d/a"].

Definition clipInFolder : Listing :=
  [file "clip.mp4" "v/clip.mp4"; file "clip.jpg" "v/clip.jpg"].

End MoreSamples.

(* ===================================================================== *)
(** * Properties *)
(* ===================================================================== *)

(** ** Strings *)

Module JsStringFacts.
Import JsString.

Lemma lower_char_dot (c : ascii) :
  Ascii.eqb (lower_char c) dot = Ascii.eqb c dot.
Proof.
  destruct c as [[] [] [] [] [] [] [] []]; vm_compute; reflexivity.
Qed.

Lemma lower_char_idem (c : ascii) : lower_char (lower_char c) = lower_char c.
Proof.
  destruct c as [[] [] [] [] [] [] [] []]; vm_compute; reflexivity.
Qed.

Lemma toLowerCase_idem (s : string) : toLowerCase (toLowerCase s) = toLowerCase s.
Proof.
  induction s as [|c r IH]; simpl; [reflexivity|].
  now rewrite lower_char_idem, IH.
Qed.

Lemma split_toLowerCase (s : string) :
  split dot (toLowerCase s) = List.map toLowerCase (split dot s).
Proof.
  induction s as [|c r IH]; simpl; [reflexivity|].
  rewrite lower_char_dot, IH.
  destruct (Ascii.eqb c dot); simpl; [reflexivity|].
  destruct (split dot r); reflexivity.
Qed.

Lemma pop_map_toLowerCase (l : list string) :
  pop (List.map toLowerCase l) = toLowerCase (pop l).
Proof.
  unfold pop. induction l as [|a [|b l] IH]; simpl in *; auto.
Qed.

(** What [split('.').pop()] is in terms of the last ['.']. *)
Lemma split_afterLastDot (s : string) :
  match Spec.afterLastDot s with
  | None => split dot s = [s]
  | Some e => exists h t, split dot s = h :: t /\ t <> [] /\ List.last t EmptyString = e
  end.
Proof.
  induction s as [|c r IH]; simpl; [reflexivity|].
  destruct (Spec.afterLastDot r) as [e|].
  - destruct IH as (h & t & -> & Hne & Hlast).
    destruct (Ascii.eqb c dot).
    + exists EmptyString, (h :: t). repeat split; [discriminate|].
      destruct t; [congruence|exact Hlast].
    + exists (String c h), t. auto.
  - rewrite IH. destruct (Ascii.eqb c dot).
    + exists EmptyString, [r]. repeat split. discriminate.
    + reflexivity.
Qed.

Lemma pop_split_dot (s : string) :
  pop (split dot s) = from_option id s (Spec.afterLastDot s).
Proof.
  pose proof (split_afterLastDot s) as H. unfold pop.
  destruct (Spec.afterLastDot s) as [e|]; simpl.
  - destruct H as (h & t & -> & Hne & Hlast).
    destruct t; [congruence|exact Hlast].
  - now rewrite H.
Qed.

(** [afterLastDot] is the suffix after the last dot. *)
Lemma afterLastDot_app (pre e : string) :
  Spec.dotless e -> Spec.afterLastDot (pre +:+ String dot e) = Some e.
Proof.
  intros He.
  assert (Hnone : Spec.afterLastDot e = None).
  { unfold Spec.dotless in He. induction e as [|c r IH]; simpl in *; [reflexivity|].
    apply andb_prop in He as [Hc Hr]. rewrite (IH Hr).
    now destruct (Ascii.eqb c dot). }
  induction pre as [|c r IH].
  - change (Spec.afterLastDot (String dot e) = Some e). simpl.
    rewrite Hnone. reflexivity.
  - change (Spec.afterLastDot (String c (r +:+ String dot e)) = Some e).
    simpl. now rewrite IH.
Qed.

Lemma afterLastDot_dotless (s : string) :
  Spec.dotless s <-> Spec.afterLastDot s = None.
Proof.
  unfold Spec.dotless. induction s as [|c r IH]; simpl; [tauto|].
  destruct (Spec.afterLastDot r) as [e|].
  - split; [|discriminate]. intros H. apply andb_prop in H as [_ H].
    apply IH in H. discriminate.
  - destruct (Ascii.eqb c dot); simpl; [split; discriminate|].
    split; [reflexivity|]. intros _. now apply IH.
Qed.

End JsStringFacts.

(** ** File classifier *)

Module ClassifierFacts.
Import JsString Classifier Spec JsStringFacts.

Lemma extOf_afterLastDot (name : string) :
  extOf name = toLowerCase (from_option id name (afterLastDot name)).
Proof. unfold extOf. now rewrite pop_split_dot. Qed.

Lemma extOf_toLowerCase (name : string) : extOf (toLowerCase name) = extOf name.
Proof.
  unfold extOf.
  now rewrite split_toLowerCase, pop_map_toLowerCase, toLowerCase_idem.
Qed.

Lemma isMediaFile_split (name : string) :
  isMediaFile name = isImage name || isVideo name.
Proof.
  unfold isMediaFile, isImage, isVideo, str_in, image_exts, video_exts.
  simpl. now rewrite !orb_false_r, <- !orb_assoc.
Qed.

Lemma image_video_disjoint (name : string) :
  isImage name = true -> isVideo name = false.
Proof.
  unfold isImage, isVideo, str_in, image_exts, video_exts. simpl.
  intros H.
  repeat (apply orb_prop in H as [H|H]); try discriminate H;
    apply String.eqb_eq in H; rewrite H; reflexivity.
Qed.

(** The code's labelling agrees with testing the image set first. *)
Lemma kindOf_by_sets (name : string) :
  kindOf name =
    if isImage name then image else if isVideo name then video else other.
Proof.
  unfold kindOf. rewrite isMediaFile_split.
  destruct (isImage name) eqn:Hi; simpl.
  - now rewrite (image_video_disjoint name Hi).
  - destruct (isVideo name); reflexivity.
Qed.

Example kindOf_upper_png : kindOf "A.PNG" = image.
Proof. reflexivity. Qed.

Example kindOf_upper_mp4 : kindOf "clip.MP4" = video.
Proof. reflexivity. Qed.

Example kindOf_readme : kindOf "readme" = other.
Proof. reflexivity. Qed.

(** C9, counterexample.  The name [png] contains no ['.'], so it has no
    substring after a last ['.'] and the classification worded in the
    specification gives [other]; the script takes the whole name for the
    extension and classifies it as an image. *)
Lemma kindOf_dotless_counterexample :
  afterLastDot "png" = None /\ kindOfSpec "png" = other /\ kindOf "png" = image.
Proof. repeat split. Qed.

(** C9, amended.  [kindOf] is a total function of the name; it classifies
    the lowercased extension, where the extension is the substring after
    the last ['.'] or, for a name without ['.'], the whole name: [image]
    for png, jpg, jpeg, webp, gif, [video] for mp4, webm, ogv, [other] for
    everything else.  Names that agree up to letter case are classified
    alike. *)
Theorem kindOf_extension (name : string) :
  kindOf name = classify (from_option id name (afterLastDot name)) /\
  (forall name', toLowerCase name' = toLowerCase name ->
                 kindOf name' = kindOf name).
Proof.
  split.
  - rewrite kindOf_by_sets. unfold classify, isImage, isVideo.
    now rewrite extOf_afterLastDot.
  - intros name' Heq. rewrite !kindOf_by_sets. unfold isImage, isVideo.
    now rewrite <- (extOf_toLowerCase name'), Heq, extOf_toLowerCase.
Qed.

Lemma kindOf_extension_witness :
  toLowerCase "Clip.Mp4" = toLowerCase "clip.MP4" /\
  kindOf "Clip.Mp4" = kindOf "clip.MP4" /\
  kindOf "clip.MP4" = classify "MP4".
Proof.
  split; [reflexivity|].
  destruct (kindOf_extension "clip.MP4") as [Hc Hi].
  split; [apply Hi; reflexivity | exact Hc].
Defined.

End ClassifierFacts.

(** ** Remote listing client *)

Module ClientFacts.
Import Async Client Observations.

Lemma prefixed_nil {A} (r : Run A) : prefixed [] r = r.
Proof. now destruct r. Qed.

Lemma logged_prefixed {A} e evs (r : Run A) :
  logged e (prefixed evs r) = prefixed (e :: evs) r.
Proof. reflexivity. Qed.

(** [k] throttled responses cost [k] iterations of the loop and nothing
    else. *)
Lemma ghFetchLoop_throttled (w : World) (s : State) (url : string) :
  forall (k remaining : nat) (attempt : Z) (n : nat),
    (k <= remaining)%nat ->
    (forall i, (i < k)%nat -> isThrottled (respond w (n + i) url) = true) ->
    run w n s (ghFetchLoop remaining attempt url) =
      prefixed (backoff url attempt k)
        (run w (n + k) s
           (ghFetchLoop (remaining - k) (attempt + Z.of_nat k) url)).
Proof.
  induction k as [|k IH]; intros remaining attempt n Hle Hth.
  - rewrite prefixed_nil, Nat.add_0_r, Nat.sub_0_r, Z.add_0_r. reflexivity.
  - destruct remaining as [|remaining]; [lia|].
    pose proof (Hth O ltac:(lia)) as H0. rewrite Nat.add_0_r in H0.
    cbn [ghFetchLoop run backoff].
    destruct (respond w n url) as [|res]; [discriminate H0|].
    cbn [isThrottled] in H0.
    destruct (status res =? 200) eqn:E200.
    { apply Z.eqb_eq in E200. rewrite E200 in H0. discriminate H0. }
    rewrite H0. cbn [run].
    rewrite (IH remaining (attempt + 1) (S n)); [|lia|].
    + rewrite !logged_prefixed.
      replace (S n + k)%nat with (n + S k)%nat by lia.
      replace (attempt + 1 + Z.of_nat k) with (attempt + Z.of_nat (S k)) by lia.
      reflexivity.
    + intros i Hi. replace (S n + i)%nat with (n + S i)%nat by lia.
      apply Hth. lia.
Qed.

(** C5.  Whatever else the network does, when the first three responses
    are throttled and the fourth is a success, [ghFetch] sends exactly four
    requests and returns the listing of the fourth response as it is; when
    five responses in a row are throttled, it sends exactly five requests
    and then throws the "unavailable" error, with no request after it. *)
Theorem ghFetch_retry_policy (w : World) (n : nat) (s : State) (path : string) :
  ((forall i, (i < 3)%nat ->
      isThrottled (respond w (n + i) (apiUrl path)) = true) ->
   forall items body,
     respond w (n + 3) (apiUrl path)
       = Responded (mkResponse 200 (Some items) body) ->
     let r := run w n s (ghFetch path) in
     outcome r = Returned items /\ requestCount r = 4%nat /\
     sent r = (n + 4)%nat /\ final r = s /\
     trace r = backoff (apiUrl path) 0 3 ++ [EvFetch (apiUrl path)])
  /\
  ((forall i, (i < 5)%nat ->
      isThrottled (respond w (n + i) (apiUrl path)) = true) ->
   let r := run w n s (ghFetch path) in
   outcome r = Threw unavailable /\ requestCount r = 5%nat /\
   sent r = (n + 5)%nat /\ final r = s /\
   trace r = backoff (apiUrl path) 0 5).
Proof.
  split.
  - intros Hth items body Hok r. subst r. unfold ghFetch, requestCount.
    rewrite (ghFetchLoop_throttled w s (apiUrl path) 3 5 0 n); [|lia|exact Hth].
    cbn [Nat.sub ghFetchLoop run]. rewrite Hok. cbn.
    replace (S (n + 3)) with (n + 4)%nat by lia. repeat split.
  - intros Hth r. subst r. unfold ghFetch, requestCount.
    rewrite (ghFetchLoop_throttled w s (apiUrl path) 5 5 0 n); [|lia|exact Hth].
    cbn. repeat split.
Qed.

Lemma ghFetch_retry_policy_witness :
  outcome (run (Samples.throttlingWorld 3 (Samples.ok Samples.oneImage)) 0
             initialState (ghFetch "docs")) = Returned Samples.oneImage /\
  outcome (run (Samples.throttlingWorld 5 (Samples.ok Samples.oneImage)) 0
             initialState (ghFetch "docs")) = Threw unavailable.
Proof.
  split.
  - refine (proj1 (proj1 (ghFetch_retry_policy
        (Samples.throttlingWorld 3 (Samples.ok Samples.oneImage)) 0
        initialState "docs") _ Samples.oneImage (Some "") _)).
    + intros i Hi. destruct i as [|[|[|i]]]; [reflexivity..|lia].
    + reflexivity.
  - refine (proj1 (proj2 (ghFetch_retry_policy
        (Samples.throttlingWorld 5 (Samples.ok Samples.oneImage)) 0
        initialState "docs") _)).
    intros i Hi. destruct i as [|[|[|[|[|i]]]]]; [reflexivity..|lia].
Defined.

(** C6, counterexample.  The answer has status 502 and a body that
    cannot be read: [ghFetch] sends the request and throws instead of
    returning the empty listing. *)
Lemma unreadable_body_counterexample :
  respond (Samples.throttlingWorld 0 MoreSamples.unreadable) 0 (apiUrl "docs")
  = Responded (mkResponse 502 None None) /\
  exists msg,
    run (Samples.throttlingWorld 0 MoreSamples.unreadable) 0 initialState
      (ghFetch "docs")
    = mkRun (Threw msg) initialState [EvFetch (apiUrl "docs")] 1.
Proof. split; [reflexivity|]. eexists. reflexivity. Qed.

(** C6, amended.  A "not found" response, on the first attempt or after
    fewer than five throttled ones, makes [ghFetch] return the empty
    listing without logging and without throwing.  A response whose status
    is none of 200, 403, 429 and 404 and whose body can be read makes it
    log the status and the body on the console and return the empty
    listing as well; when the body of such a response cannot be read,
    nothing is logged and the error propagates. *)
Theorem ghFetch_degrades_to_empty
  (w : World) (n : nat) (s : State) (path : string) (k : nat) (res : Response) :
  (k < 5)%nat ->
  (forall i, (i < k)%nat ->
     isThrottled (respond w (n + i) (apiUrl path)) = true) ->
  respond w (n + k) (apiUrl path) = Responded res ->
  (status res = 404 ->
   run w n s (ghFetch path) =
     mkRun (Returned []) s
       (backoff (apiUrl path) 0 k ++ [EvFetch (apiUrl path)]) (S (n + k)))
  /\
  (status res <> 200 -> status res <> 403 -> status res <> 429 ->
   status res <> 404 ->
   (forall body, text res = Some body ->
      run w n s (ghFetch path) =
        mkRun (Returned []) s
          (backoff (apiUrl path) 0 k ++
             [EvFetch (apiUrl path); EvConsoleError (status res) body])
          (S (n + k))) /\
   (text res = None ->
      exists msg,
        run w n s (ghFetch path) =
          mkRun (Threw msg) s
            (backoff (apiUrl path) 0 k ++ [EvFetch (apiUrl path)])
            (S (n + k)))).
Proof.
  intros Hk Hth Hres. unfold ghFetch.
  rewrite (ghFetchLoop_throttled w s (apiUrl path) k 5 0 n); [|lia|exact Hth].
  destruct (5 - k)%nat as [|remaining] eqn:Hrem; [lia|].
  cbn [ghFetchLoop run]. rewrite Hres. split.
  - intros H404. rewrite H404. reflexivity.
  - intros H200 H403 H429 H404.
    apply Z.eqb_neq in H200, H403, H429, H404.
    rewrite H200, H403, H429, H404. cbn [orb]. split.
    + intros body ->. reflexivity.
    + intros ->. eexists. reflexivity.
Qed.

Lemma ghFetch_degrades_to_empty_witness :
  outcome (run (Samples.throttlingWorld 2 Samples.notFound) 0 initialState
             (ghFetch "missing")) = Returned [] /\
  outcome (run (Samples.throttlingWorld 0 Samples.serverError) 0 initialState
             (ghFetch "missing")) = Returned [] /\
  exists msg,
    run (Samples.throttlingWorld 0 MoreSamples.unreadable) 0 initialState
      (ghFetch "missing")
    = mkRun (Threw msg) initialState
        (backoff (apiUrl "missing") 0 0 ++ [EvFetch (apiUrl "missing")]) 1.
Proof.
  split; [|split].
  - refine (f_equal outcome (proj1 (ghFetch_degrades_to_empty
        (Samples.throttlingWorld 2 Samples.notFound) 0 initialState "missing"
        2 (mkResponse 404 None (Some "Not Found")) _ _ _) _)).
    + lia.
    + intros i Hi. destruct i as [|[|i]]; [reflexivity..|lia].
    + reflexivity.
    + reflexivity.
  - refine (f_equal outcome (proj1 (proj2 (ghFetch_degrades_to_empty
        (Samples.throttlingWorld 0 Samples.serverError) 0 initialState
        "missing" 0 (mkResponse 500 None (Some "Internal Server Error"))
        _ _ _) _ _ _ _) "Internal Server Error" _)).
    + lia.
    + intros i Hi. lia.
    + reflexivity.
    + discriminate.
    + discriminate.
    + discriminate.
    + discriminate.
    + reflexivity.
  - refine (proj2 (proj2 (ghFetch_degrades_to_empty
        (Samples.throttlingWorld 0 MoreSamples.unreadable) 0 initialState
        "missing" 0 (mkResponse 502 None None) _ _ _) _ _ _ _) _).
    + lia.
    + intros i Hi. lia.
    + reflexivity.
    + discriminate.
    + discriminate.
    + discriminate.
    + discriminate.
    + reflexivity.
Defined.

End ClientFacts.

(** ** Media resolution: the pure part *)

Module ResolverFacts.
Import JsString Classifier Async Client Browser Observations.

Lemma fold_push {A B} (keep : A -> bool) (mk : A -> B) (l : list A) :
  forall acc,
    fold_left (fun m x => if keep x then m ++ [mk x] else m) l acc
    = acc ++ List.map mk (List.filter keep l).
Proof.
  induction l as [|x l IH]; intros acc; simpl.
  - now rewrite app_nil_r.
  - rewrite IH. destruct (keep x); simpl; [|reflexivity].
    now rewrite <- app_assoc.
Qed.

(** The first loop keeps the media files, in listing order. *)
Lemma scanDirect_filter (items : Listing) :
  scanDirect items = List.map (directItem items) (List.filter isMediaEntry items).
Proof. unfold scanDirect. now rewrite fold_push. Qed.

Lemma scanSub_filter_eq (sub : Listing) (media : MediaList) :
  scanSub sub media = media ++ List.map subItem (List.filter isMediaEntry sub).
Proof. unfold scanSub. now rewrite fold_push. Qed.

(** The test of the two loops accepts the entries that sections 3 and 4.3
    call media files. *)
Lemma isMediaFile_mediaName (name : string) :
  isMediaFile name = Spec.mediaName name.
Proof.
  rewrite ClassifierFacts.isMediaFile_split.
  unfold Spec.mediaName, Spec.classify, isImage, isVideo.
  rewrite <- ClassifierFacts.extOf_afterLastDot.
  destruct (str_in (extOf name) image_exts); [reflexivity|].
  now destruct (str_in (extOf name) video_exts).
Qed.

Lemma isMediaEntry_spec (it : Entry.t) : isMediaEntry it = isMediaFileEntry it.
Proof.
  unfold isMediaEntry, isMediaFileEntry. now rewrite isMediaFile_mediaName.
Qed.

Lemma filter_isMediaEntry (items : Listing) :
  List.filter isMediaEntry items = List.filter isMediaFileEntry items.
Proof. apply List.filter_ext. intros it. apply isMediaEntry_spec. Qed.

Lemma flat_map_isMediaEntry (tree : string -> Listing) (dirs : Listing) :
  flat_map (fun d => List.map subItem
                       (List.filter isMediaEntry (tree (Entry.path d)))) dirs
  = flat_map (fun d => List.map subItem
                         (List.filter isMediaFileEntry (tree (Entry.path d))))
             dirs.
Proof.
  apply List.flat_map_ext. intros d. now rewrite filter_isMediaEntry.
Qed.

Lemma existsb_listed (items : Listing) (p : string) :
  existsb (fun x => String.eqb (Entry.path x) p) items = true <-> listed items p.
Proof.
  rewrite existsb_exists. unfold listed.
  split; intros (x & Hin & Hx); exists x; split; auto;
    now apply String.eqb_eq.
Qed.

Lemma findPoster_rule (items : Listing) (cands : list string) :
  posterRule items cands (findPoster items cands).
Proof.
  induction cands as [|p rest IH]; simpl.
  - intros p [].
  - destruct (existsb _ items) eqn:E.
    + exists [], p, rest. repeat split; [now apply existsb_listed|intros q []].
    + assert (Hp : ~ listed items p).
      { intros H. apply existsb_listed in H. congruence. }
      destruct (findPoster items rest) as [u|]; simpl in *.
      * destruct IH as (before & q & after & -> & -> & Hq & Hbefore).
        exists (p :: before), q, after. repeat split; auto.
        intros q' [<-|Hin]; auto.
      * intros q [<-|Hin]; auto.
Qed.

Lemma findPoster_first (items : Listing) (before after : list string) (p : string) :
  (forall q, In q before -> ~ listed items q) ->
  listed items p ->
  findPoster items (before ++ p :: after) = Some (rawUrl p).
Proof.
  intros Hbefore Hp. induction before as [|q before IH]; simpl.
  - apply existsb_listed in Hp. now rewrite Hp.
  - destruct (existsb _ items) eqn:E.
    + apply existsb_listed in E. exfalso. apply (Hbefore q); simpl; auto.
    + apply IH. intros q' Hin. apply Hbefore. now right.
Qed.

(** The extension the regular expression removes is the last one. *)
Lemma all_chars_ext_dot (x e : string) :
  all_chars ext_char (x +:+ String dot e) = false.
Proof.
  induction x as [|c r IH].
  - reflexivity.
  - change (all_chars ext_char (String c (r +:+ String dot e)) = false).
    simpl. rewrite IH. apply andb_false_r.
Qed.

Lemma stripExt_last (base e : string) :
  e <> EmptyString -> all_chars ext_char e = true ->
  stripExt (base +:+ String dot e) = base.
Proof.
  intros Hne He. induction base as [|c r IH].
  - change (stripExt (String dot e) = EmptyString).
    destruct e as [|d e']; [congruence|].
    unfold stripExt, ext_suffix. rewrite He. reflexivity.
  - change (stripExt (String c (r +:+ String dot e)) = String c r).
    assert (Hno : ext_suffix (String c (r +:+ String dot e)) = false).
    { unfold ext_suffix.
      destruct (r +:+ String dot e) as [|d t] eqn:Hr; [reflexivity|].
      rewrite <- Hr, all_chars_ext_dot. apply andb_false_r. }
    cbn [stripExt]. rewrite Hno. now rewrite IH.
Qed.

Lemma startsWith_refl (s : string) : startsWith s s = true.
Proof.
  induction s as [|c r IH]; simpl; [reflexivity|].
  now rewrite Ascii.eqb_refl, IH.
Qed.

Lemma sliceFrom_length (s : string) : sliceFrom (String.length s) s = EmptyString.
Proof. induction s as [|c r IH]; simpl; auto. Qed.

(** For a file at the repository root ([path = name]) the directory part
    of the candidates is empty. *)
Lemma removeFirst_self (name : string) : removeFirst name name = EmptyString.
Proof.
  destruct name as [|c r]; [reflexivity|].
  cbn [removeFirst]. rewrite startsWith_refl. apply sliceFrom_length.
Qed.

(** More generally the directory part is what precedes the name, as long
    as the name does not occur earlier in the path. *)
Lemma removeFirst_app (d name : string) :
  (forall i, (i < String.length d)%nat ->
             startsWith name (sliceFrom i (d +:+ name)) = false) ->
  removeFirst name (d +:+ name) = d.
Proof.
  induction d as [|c d IH]; intros Hfirst.
  - apply removeFirst_self.
  - change (removeFirst name (String c (d +:+ name)) = String c d).
    pose proof (Hfirst O ltac:(simpl; lia)) as H0.
    change (startsWith name (String c (d +:+ name)) = false) in H0.
    cbn [removeFirst]. rewrite H0. f_equal. apply IH.
    intros i Hi. apply (Hfirst (S i)). simpl. lia.
Qed.

(** The candidates of an ordinary file [d/base.e]: the same directory and
    base name with the four image extensions. *)
Lemma posterCandidates_plain (it : Entry.t) (d base e : string) :
  Entry.name it = base +:+ String dot e ->
  e <> EmptyString -> all_chars ext_char e = true ->
  Entry.path it = d +:+ Entry.name it ->
  (forall i, (i < String.length d)%nat ->
             startsWith (Entry.name it) (sliceFrom i (Entry.path it)) = false) ->
  posterCandidates it
  = List.map (fun x => d +:+ base +:+ "." +:+ x) ["jpg"; "jpeg"; "webp"; "png"].
Proof.
  intros Hname Hne He Hpath Hfirst. unfold posterCandidates.
  rewrite Hpath in *. rewrite (removeFirst_app d (Entry.name it) Hfirst).
  rewrite Hname, (stripExt_last base e Hne He). reflexivity.
Qed.

Example poster_found :
  List.map MediaItem.poster (scanDirect Samples.clipWithPoster)
  = [Some (rawUrl "clip.jpg"); Some (rawUrl "clip.jpg")].
Proof. reflexivity. Qed.

Example poster_missing :
  List.map MediaItem.poster (scanDirect Samples.clipAlone) = [None].
Proof. reflexivity. Qed.

(** C3, counterexample.  A listing with the single file [a.jpg] resolves to
    one item of type image whose poster is set: the first candidate,
    [a.jpg], is the path of the item's own entry. *)
Lemma image_poster_counterexample :
  List.map (fun m => (MediaItem.type m, MediaItem.poster m))
      (scanDirect Samples.stillOnly)
  = [("image", Some (rawUrl "a.jpg"))].
Proof. reflexivity. Qed.

(** C3, amended.  Every item built from a direct file entry, image or
    video, carries as poster the raw URL of the first of its four candidate
    paths (directory part + base name + .jpg, .jpeg, .webp, .png, in that
    order) that is the path of some entry of the same listing, whatever the
    type of that entry and the item's own entry included; the poster is
    unset exactly when no entry has a candidate path.  Items added from a
    subfolder listing have no poster. *)
Theorem poster_of_resolved_items (items : Listing) :
  (forall m, In m (scanDirect items) ->
     exists it, In it items /\ isMediaEntry it = true /\
       m = directItem items it /\
       posterRule items (posterCandidates it) (MediaItem.poster m)) /\
  (forall sub media m, In m (scanSub sub media) ->
     In m media \/ MediaItem.poster m = None).
Proof.
  split.
  - intros m Hm. rewrite scanDirect_filter in Hm.
    apply in_map_iff in Hm as (it & <- & Hit).
    apply filter_In in Hit as [Hin Hmedia].
    exists it. repeat split; auto. apply findPoster_rule.
  - intros sub media m Hm. rewrite scanSub_filter_eq in Hm.
    apply in_app_or in Hm as [Hm|Hm]; [now left|right].
    apply in_map_iff in Hm as (x & <- & _). reflexivity.
Qed.

Lemma poster_of_resolved_items_witness :
  exists it, In it Samples.clipWithPoster /\ isMediaEntry it = true /\
    directItem Samples.clipWithPoster (Samples.file "clip.mp4" "clip.mp4")
      = directItem Samples.clipWithPoster it /\
    posterRule Samples.clipWithPoster (posterCandidates it)
      (Some (rawUrl "clip.jpg")).
Proof.
  apply (proj1 (poster_of_resolved_items Samples.clipWithPoster)
           (directItem Samples.clipWithPoster
              (Samples.file "clip.mp4" "clip.mp4"))).
  simpl. left. reflexivity.
Defined.

(** C10, counterexample.  The listing holds the video [clip.mp4], the file
    [clip.jpg] and a directory whose path is the candidate [clip.png]; the
    poster of the video is the URL of [clip.jpg], the earlier candidate,
    not that of the directory. *)
Lemma directory_poster_counterexample :
  In (Samples.dir "clip.png" "clip.png") Samples.clipWithFolder /\
  In "clip.png"
     (posterCandidates (Samples.file "clip.mp4" "clip.mp4")) /\
  List.map MediaItem.poster (scanDirect Samples.clipWithFolder)
    = [Some (rawUrl "clip.jpg"); Some (rawUrl "clip.jpg")] /\
  rawUrl "clip.jpg" <> rawUrl "clip.png".
Proof.
  repeat split.
  - simpl. auto.
  - simpl. auto 6.
  - discriminate.
Qed.

(** C10, amended.  The lookup never reads the type of the entry it finds:
    when the listing holds a media file [it] and a directory entry [d]
    whose path is one of the candidates of [it], and no entry has the path
    of an earlier candidate, the raw URL of the directory becomes the
    poster of the item built for [it]. *)
Theorem directory_poster_accepted
  (items : Listing) (it d : Entry.t) (before after : list string) :
  In it items -> isMediaEntry it = true ->
  In d items -> Entry.type d = "dir" ->
  posterCandidates it = before ++ Entry.path d :: after ->
  (forall q, In q before -> ~ listed items q) ->
  exists m, In m (scanDirect items) /\
    MediaItem.path m = Entry.path it /\
    MediaItem.poster m = Some (rawUrl (Entry.path d)).
Proof.
  intros Hit Hmedia Hd _ Hcands Hbefore.
  exists (directItem items it). split; [|split].
  - rewrite scanDirect_filter. apply in_map. now apply filter_In.
  - reflexivity.
  - change (findPoster items (posterCandidates it)
            = Some (rawUrl (Entry.path d))).
    rewrite Hcands. apply findPoster_first; [exact Hbefore|].
    now exists d.
Qed.

Lemma directory_poster_accepted_witness :
  exists m, In m (scanDirect Samples.clipWithFolderOnly) /\
    MediaItem.path m = "clip.mp4" /\
    MediaItem.poster m = Some (rawUrl "clip.jpg").
Proof.
  apply (directory_poster_accepted Samples.clipWithFolderOnly
           (Samples.file "clip.mp4" "clip.mp4")
           (Samples.dir "clip.jpg" "clip.jpg")
           [] ["clip.jpeg"; "clip.webp"; "clip.png"]).
  - simpl. auto.
  - reflexivity.
  - simpl. auto.
  - reflexivity.
  - reflexivity.
  - intros q [].
Defined.

End ResolverFacts.

(** ** Sequential runs *)

Module RunFacts.
Import Async Client Browser Observations ResolverFacts.

Lemma run_bind {A B} (w : World) (p : Proc A) (f : A -> Proc B) :
  forall n s,
    run w n s (Async.bind p f) =
      let r := run w n s p in
      match outcome r with
      | Returned a => prefixed (trace r) (run w (sent r) (final r) (f a))
      | Threw msg => mkRun (Threw msg) (final r) (trace r) (sent r)
      end.
Proof.
  induction p as [a|msg|k IH|g k IH|url k IH|url k IH|ms k IH|c b k IH|l c k IH];
    intros n s; cbn [Async.bind run]; try reflexivity.
  - cbn. now destruct (run w n s (f a)).
  - apply IH.
  - apply IH.
  - rewrite IH. cbn. destruct (outcome (run w (S n) s (k (respond w n url)))); reflexivity.
  - rewrite IH. cbn. destruct (outcome (run w (S n) s (k (manifest w n url)))); reflexivity.
  - rewrite IH. cbn. destruct (outcome (run w n s k)); reflexivity.
  - rewrite IH. cbn. destruct (outcome (run w n s k)); reflexivity.
  - rewrite IH. cbn. destruct (outcome (run w n s k)); reflexivity.
Qed.

Lemma run_stateless {A} (w : World) (p : Proc A) :
  Stateless p -> forall n s, final (run w n s p) = s.
Proof.
  induction 1; intros n s; cbn; auto.
Qed.

(** ... and its course does not depend on the state it runs in. *)
Lemma run_stateless_any {A} (w : World) (p : Proc A) :
  Stateless p ->
  forall n s s',
    run w n s' p =
      mkRun (outcome (run w n s p)) s' (trace (run w n s p)) (sent (run w n s p)).
Proof.
  induction 1 as [a|msg|url k Hk IH|url k Hk IH|ms k Hk IH|c b k Hk IH
                 |l c k Hk IH]; intros n s s'; cbn [run]; try reflexivity.
  - now rewrite (IH _ (S n) s s').
  - now rewrite (IH _ (S n) s s').
  - now rewrite (IH n s s').
  - now rewrite (IH n s s').
  - now rewrite (IH n s s').
Qed.

Lemma Stateless_bind {A B} (p : Proc A) (f : A -> Proc B) :
  Stateless p -> (forall a, Stateless (f a)) -> Stateless (Async.bind p f).
Proof.
  intros Hp Hf. induction Hp; cbn [Async.bind]; try constructor; auto.
Qed.

Lemma Stateless_ghFetchLoop url :
  forall remaining attempt, Stateless (ghFetchLoop remaining attempt url).
Proof.
  induction remaining as [|remaining IH]; intros attempt; cbn [ghFetchLoop].
  - constructor.
  - constructor. intros [|res]; [constructor|].
    destruct (status res =? 200).
    + destruct (json res); constructor.
    + destruct ((status res =? 403) || (status res =? 429)).
      * constructor. apply IH.
      * destruct (status res =? 404); [constructor|].
        destruct (text res); repeat constructor.
Qed.

Lemma Stateless_ghFetch path : Stateless (ghFetch path).
Proof. apply Stateless_ghFetchLoop. Qed.

Lemma Stateless_scanSubfolders items :
  forall media, Stateless (scanSubfolders items media).
Proof.
  induction items as [|it rest IH]; intros media; cbn [scanSubfolders].
  - constructor.
  - destruct (String.eqb (Entry.type it) "dir"); [|apply IH].
    apply Stateless_bind; [apply Stateless_ghFetch|]. intros sub. apply IH.
Qed.

Lemma Stateless_loadFallback media : Stateless (loadFallback media).
Proof.
  destruct media; cbn; constructor. intros [demo|]; constructor.
Qed.

Lemma Stateless_collectMedia path : Stateless (collectMedia path).
Proof.
  unfold collectMedia.
  apply Stateless_bind; [apply Stateless_ghFetch|]. intros items.
  apply Stateless_bind; [apply Stateless_scanSubfolders|].
  apply Stateless_loadFallback.
Qed.

(** A listing call asks for its own URL and for nothing else. *)
Lemma requests_ghFetchLoop w s url :
  forall remaining attempt n e,
    In e (requests (trace (run w n s (ghFetchLoop remaining attempt url)))) ->
    e = EvFetch url.
Proof.
  induction remaining as [|remaining IH]; intros attempt n e;
    cbn [ghFetchLoop run logged trace requests List.filter isRequest].
  - intros [].
  - intros [<-|Hin]; [reflexivity|]. revert Hin.
    destruct (respond w n url) as [|res]; [intros []|].
    destruct (status res =? 200).
    + destruct (json res); intros [].
    + destruct ((status res =? 403) || (status res =? 429)).
      * cbn [run logged trace List.filter isRequest]. apply IH.
      * destruct (status res =? 404); [intros []|].
        destruct (text res); intros [].
Qed.

Lemma trace_ghFetch_head w n s path :
  exists rest, trace (run w n s (ghFetch path)) = EvFetch (apiUrl path) :: rest.
Proof.
  unfold ghFetch. cbn [ghFetchLoop run logged trace]. eexists. reflexivity.
Qed.

Lemma requests_app (l1 l2 : list Event) :
  requests (l1 ++ l2) = requests l1 ++ requests l2.
Proof. unfold requests. induction l1 as [|e l1 IH]; simpl; [reflexivity|].
  destruct (isRequest e); simpl; now rewrite IH. Qed.

(** The request counter after a run: one more for every request of the
    trace. *)
Lemma run_sent {A} (w : World) (p : Proc A) :
  forall n s,
    sent (run w n s p) = (n + length (requests (trace (run w n s p))))%nat.
Proof.
  induction p as [a|msg|k IH|f k IH|url k IH|url k IH|ms k IH|c b k IH|l c k IH];
    intros n s; cbn [run logged sent trace requests List.filter isRequest length];
    fold (@requests); try rewrite IH; try (unfold requests; lia).
Qed.

Lemma serves_answers w tree : serves w tree -> answers w tree.
Proof.
  intros Hw n s path. destruct (Hw n path) as (res & Hres & H200 & Hjson).
  unfold ghFetch. cbn [ghFetchLoop run logged outcome].
  now rewrite Hres, H200, Hjson.
Qed.

(** The second loop against a repository that answers: what it adds, and
    which listings it asks for. *)
Lemma run_scanSubfolders_answered w tree s :
  answers w tree ->
  forall items media n,
    let r := run w n s (scanSubfolders items media) in
    let asked :=
      List.map (fun d => EvFetch (apiUrl (Entry.path d)))
        (List.filter isDirEntry items) in
    outcome r =
      Returned
        (media ++
         flat_map (fun d => List.map subItem
                      (List.filter isMediaEntry (tree (Entry.path d))))
                  (List.filter isDirEntry items)) /\
    (forall e, In e (requests (trace r)) -> In e asked) /\
    (forall e, In e asked -> In e (trace r)).
Proof.
  intros Hw. induction items as [|it rest IH]; intros media n.
  - cbn. rewrite app_nil_r. repeat split; auto.
  - cbn [scanSubfolders List.filter].
    change (String.eqb (Entry.type it) "dir") with (isDirEntry it).
    destruct (isDirEntry it); [|apply IH].
    cbv zeta. rewrite run_bind. cbv zeta.
    rewrite (Hw n s (Entry.path it)).
    rewrite (run_stateless w _ (Stateless_ghFetch (Entry.path it))).
    destruct (IH (scanSub (tree (Entry.path it)) media)
                 (sent (run w n s (ghFetch (Entry.path it)))))
      as (Hout & Hsub & Hsup).
    cbn [prefixed outcome trace List.map flat_map]. split; [|split].
    + rewrite Hout, scanSub_filter_eq. now rewrite <- app_assoc.
    + intros e He. rewrite requests_app in He.
      apply in_app_or in He as [He|He].
      * left. symmetry. apply (requests_ghFetchLoop _ _ _ _ _ _ _ He).
      * right. now apply Hsub.
    + intros e [<-|He].
      * destruct (trace_ghFetch_head w n s (Entry.path it)) as (tl & ->).
        now left.
      * apply in_or_app. right. now apply Hsup.
Qed.

End RunFacts.

(** ** Media resolution: complete runs *)

Module ResolutionFacts.
Import Async Client Browser Observations ResolverFacts RunFacts.

(** The state in which a resolution of [path] that produced [media] ends
    when nothing else ran in between. *)
Lemma run_showMediaForPath_miss w n s path :
  mediaCache s !! path = None ->
  run w n s (showMediaForPath path) =
    let r := run w n (announce path s) (collectMedia path) in
    match outcome r with
    | Returned media =>
        mkRun (Returned tt)
          (renderGallery media
             (setMediaCache (<[path := media]> (mediaCache s)) (announce path s)))
          (trace r) (sent r)
    | Threw msg => mkRun (Threw msg) (announce path s) (trace r) (sent r)
    end.
Proof.
  intros Hmiss. unfold showMediaForPath. cbn [run].
  change (mediaCache (announce path s)) with (mediaCache s). rewrite Hmiss.
  rewrite run_bind. cbn zeta.
  rewrite (run_stateless w _ (Stateless_collectMedia path)).
  destruct (outcome (run w n (announce path s) (collectMedia path)));
    [|reflexivity].
  cbn. unfold prefixed. cbn. now rewrite ?app_nil_r.
Qed.

Lemma run_showMediaForPath_hit w n s path media :
  mediaCache s !! path = Some media ->
  run w n s (showMediaForPath path) =
    mkRun (Returned tt) (renderGallery media (announce path s)) [] n.
Proof.
  intros Hhit. unfold showMediaForPath. cbn [run].
  change (mediaCache (announce path s)) with (mediaCache s). now rewrite Hhit.
Qed.

(** The three steps between the cache test and the cache write, against
    a repository that answers. *)
Lemma run_collectMedia_answered w tree n s path :
  answers w tree ->
  let r := run w n s (collectMedia path) in
  let found := directChildren tree path ++ nestedChildren tree path in
  exists listing,
    (forall e, In e (requests listing) -> In e (listingRequests tree path)) /\
    (forall e, In e (listingRequests tree path) -> In e listing) /\
    match found with
    | [] =>
        trace r = listing ++ [EvFetchJson manifestUrl] /\
        outcome r
        = Returned
            (from_option id []
               (manifest w (n + length (requests listing)) manifestUrl))
    | _ :: _ => trace r = listing /\ outcome r = Returned found
    end.
Proof.
  intros Hw. cbv zeta. unfold collectMedia.
  rewrite run_bind. cbv zeta. rewrite (Hw n s path).
  rewrite (run_stateless w _ (Stateless_ghFetch path)).
  rewrite run_bind. cbv zeta.
  pose proof (trace_ghFetch_head w n s path) as Hhead.
  assert (Hown : forall e, In e (requests (trace (run w n s (ghFetch path)))) ->
                           e = EvFetch (apiUrl path))
    by (intros e; apply requests_ghFetchLoop).
  set (first := run w n s (ghFetch path)) in *.
  destruct (run_scanSubfolders_answered w tree s Hw (tree path)
              (scanDirect (tree path)) (sent first))
    as (Hout & Hsub & Hsup).
  assert (Hfinal : final (run w (sent first) s
                     (scanSubfolders (tree path) (scanDirect (tree path)))) = s)
    by apply (run_stateless w _ (Stateless_scanSubfolders _ _)).
  set (scan := run w (sent first) s
                 (scanSubfolders (tree path) (scanDirect (tree path)))) in *.
  rewrite Hout, scanDirect_filter, filter_isMediaEntry, flat_map_isMediaEntry.
  fold (directChildren tree path). fold (subdirs tree path) in *.
  fold (nestedChildren tree path).
  exists (trace first ++ trace scan).
  split; [|split].
  - intros e He. rewrite requests_app in He. unfold listingRequests.
    apply in_app_or in He as [He|He].
    + left. symmetry. now apply Hown.
    + right. now apply Hsub.
  - intros e [<-|He].
    + destruct Hhead as (tl & ->). now left.
    + apply in_or_app. right. now apply Hsup.
  - destruct (directChildren tree path ++ nestedChildren tree path)
      as [|m found].
    + cbn [loadFallback run logged prefixed trace outcome].
      rewrite Hfinal.
      assert (Hsent : sent scan
                      = (n + length (requests (trace first ++ trace scan)))%nat).
      { subst scan. rewrite run_sent. subst first. rewrite run_sent.
        rewrite requests_app, length_app. lia. }
      rewrite <- Hsent.
      destruct (manifest w (sent scan) manifestUrl) as [demo|];
        cbn [run logged trace outcome from_option id app];
        now rewrite <- app_assoc, ?app_nil_r.
    + cbn [loadFallback run logged prefixed trace outcome].
      now rewrite !app_nil_r.
Qed.

Lemma staticWorld_serves byUrl demo :
  serves (Samples.staticWorld byUrl demo) (Samples.treeOf byUrl).
Proof. intros i path. eexists. repeat split. Qed.

Lemma flakyWorld_answers byUrl :
  answers (Samples.flakyWorld byUrl) (Samples.treeOf byUrl).
Proof.
  intros n s path. unfold ghFetch.
  destruct (Nat.even n) eqn:Heven.
  - rewrite (ClientFacts.ghFetchLoop_throttled _ s (apiUrl path) 1 5 0 n);
      [|lia|].
    + cbn [Nat.sub ghFetchLoop run logged prefixed outcome
           Samples.flakyWorld respond].
      replace (n + 1)%nat with (S n) by lia.
      rewrite Nat.even_succ, <- Nat.negb_even, Heven. reflexivity.
    + intros i Hi. replace (n + i)%nat with n by lia.
      cbn [Samples.flakyWorld respond]. now rewrite Heven.
  - cbn [ghFetchLoop run logged outcome Samples.flakyWorld respond].
    now rewrite Heven.
Qed.

Example resolve_through_throttling :
  List.map MediaItem.path
    (allVisibleMedia
       (final (run (Samples.flakyWorld Samples.twoLevels) 0 initialState
                 (showMediaForPath ""))))
  = ["a.png"; "sub/b.png"].
Proof. reflexivity. Qed.



(** The same resolution, executed: the text files of both levels and the
    image two levels down are left out. *)
Example resolve_mixed_tree :
  let r := run (Samples.staticWorld MoreSamples.mixedTree None) 0 initialState
             (showMediaForPath "") in
  List.map MediaItem.path (allVisibleMedia (final r)) = ["a.png"; "sub/b.png"] /\
  trace r = [EvFetch (apiUrl ""); EvFetch (apiUrl "sub")].
Proof. split; reflexivity. Qed.

(** C8.  When neither the path nor its immediate subdirectories hold a
    media file, the resolution of an uncached path (not the name of an
    inherited member of the cache object) requests the fallback manifest
    once, after the listings: the trace is the listing phase followed by
    that one request, which is the request numbered by the requests sent
    before it.  If that request loads the manifest, its records, in their
    order and as they are, are the result; if it fails in any way, the
    failure is swallowed and the result is empty.  Either result is
    rendered and cached, and the resolution ends normally. *)
Theorem resolve_falls_back w tree n s path :
  answers w tree ->
  JsObject.inherited path = false ->
  mediaCache s !! path = None ->
  directChildren tree path ++ nestedChildren tree path = [] ->
  let r := run w n s (showMediaForPath path) in
  exists listing,
    outcome r = Returned tt /\
    trace r = listing ++ [EvFetchJson manifestUrl] /\
    (forall e, In e (requests listing) -> In e (listingRequests tree path)) /\
    (forall e, In e (listingRequests tree path) -> In e listing) /\
    let result :=
      match manifest w (n + length (requests listing)) manifestUrl with
      | Some demo => demo
      | None => []
      end in
    allVisibleMedia (final r) = result /\
    gallery (final r) = view result /\
    mediaCache (final r) !! path = Some result.
Proof.
  intros Hw _ Hmiss Hempty r. subst r.
  rewrite (run_showMediaForPath_miss w n s path Hmiss). cbv zeta.
  destruct (run_collectMedia_answered w tree n (announce path s) path Hw)
    as (listing & Hsub & Hsup & Hcase).
  rewrite Hempty in Hcase. destruct Hcase as (Htrace & Hout).
  exists listing. rewrite Hout, Htrace. cbn [outcome final trace].
  split; [reflexivity|]. split; [reflexivity|]. split; [exact Hsub|].
  split; [exact Hsup|].
  destruct (manifest w (n + length (requests listing)) manifestUrl) as [demo|];
    cbn [from_option id].
  - split; [reflexivity|]. split; [now destruct demo|apply lookup_insert_eq].
  - split; [reflexivity|]. split; [reflexivity|apply lookup_insert_eq].
Qed.

Lemma resolve_falls_back_witness :
  exists listing,
    outcome (run (Samples.staticWorld Samples.noMedia (Some [Samples.demoItem]))
               0 initialState (showMediaForPath "")) = Returned tt /\
    trace (run (Samples.staticWorld Samples.noMedia (Some [Samples.demoItem]))
             0 initialState (showMediaForPath ""))
    = listing ++ [EvFetchJson manifestUrl] /\
    (forall e, In e (requests listing) ->
       In e (listingRequests (Samples.treeOf Samples.noMedia) "")) /\
    (forall e, In e (listingRequests (Samples.treeOf Samples.noMedia) "") ->
       In e listing) /\
    let result :=
      match manifest (Samples.staticWorld Samples.noMedia
                        (Some [Samples.demoItem]))
              (0 + length (requests listing)) manifestUrl with
      | Some demo => demo
      | None => []
      end in
    allVisibleMedia
      (final (run (Samples.staticWorld Samples.noMedia (Some [Samples.demoItem]))
                0 initialState (showMediaForPath ""))) = result /\
    gallery
      (final (run (Samples.staticWorld Samples.noMedia (Some [Samples.demoItem]))
                0 initialState (showMediaForPath ""))) = view result /\
    mediaCache
      (final (run (Samples.staticWorld Samples.noMedia (Some [Samples.demoItem]))
                0 initialState (showMediaForPath ""))) !! "" = Some result.
Proof.
  apply (resolve_falls_back
           (Samples.staticWorld Samples.noMedia (Some [Samples.demoItem]))
           (Samples.treeOf Samples.noMedia) 0 initialState "").
  - apply serves_answers, staticWorld_serves.
  - reflexivity.
  - reflexivity.
  - reflexivity.
Defined.

Example fallback_loaded :
  allVisibleMedia
    (final (run (Samples.staticWorld Samples.noMedia (Some [Samples.demoItem]))
              0 initialState (showMediaForPath "")))
  = [Samples.demoItem].
Proof. reflexivity. Qed.

Example fallback_failed :
  final (run (Samples.staticWorld Samples.noMedia None) 0 initialState
           (showMediaForPath ""))
  = published "" [] (announce "" initialState).
Proof. reflexivity. Qed.

Lemma trace_collectMedia_starts w n s path :
  exists rest,
    trace (run w n s (collectMedia path)) = EvFetch (apiUrl path) :: rest.
Proof.
  unfold collectMedia, ghFetch. cbn [ghFetchLoop Async.bind run logged trace].
  eexists. reflexivity.
Qed.

(** C4, counterexample.  After the tree pane has loaded the root folder its
    listing is in the listing cache; resolving the media of the root then
    requests that same listing from the network once more. *)
Lemma cached_listing_refetched_counterexample :
  cache Samples.rootListed !! ""
    = Some (Samples.treeOf Samples.twoLevels "") /\
  trace (run (Samples.staticWorld Samples.twoLevels None) 1 Samples.rootListed
           (showMediaForPath ""))
    = [EvFetch (apiUrl ""); EvFetch (apiUrl "sub")].
Proof. split; vm_compute; reflexivity. Qed.

(** C4, amended.  For a path that is not the name of an inherited member
    of the cache objects, the media resolver neither reads nor writes the
    listing cache: the listing cache is the same after a resolution as
    before, and replacing its content beforehand changes nothing else.
    When the media cache has no entry for the path, the resolver requests
    the listing of the path from the network, whatever the listing cache
    holds, and against a repository whose listing calls succeed it
    requests the listing of every immediate subdirectory as well; when the
    media cache has an entry it sends no request and shows the cached
    media.  The listing cache serves the tree pane only:
    [loadAndRenderDir] on a cached path sends no request and renders the
    cached listing. *)
Theorem resolver_bypasses_listing_cache w n s path :
  JsObject.inherited path = false ->
  let r := run w n s (showMediaForPath path) in
  cache (final r) = cache s /\
  (forall listings,
     let r' := run w n (setCache listings s) (showMediaForPath path) in
     outcome r' = outcome r /\ trace r' = trace r /\
     final r' = setCache listings (final r)) /\
  (mediaCache s !! path = None ->
     (exists rest, trace r = EvFetch (apiUrl path) :: rest) /\
     (forall tree, answers w tree ->
        forall e, In e (listingRequests tree path) -> In e (trace r))) /\
  (forall media, mediaCache s !! path = Some media ->
     trace r = [] /\ allVisibleMedia (final r) = media) /\
  (forall items container, cache s !! path = Some items ->
     run w n s (loadAndRenderDir path container)
     = mkRun (Returned tt) s [EvRenderDir items container] n).
Proof.
  intros _ r. subst r. split; [|split; [|split; [|split]]].
  - destruct (mediaCache s !! path) as [media|] eqn:Hc.
    + now rewrite (run_showMediaForPath_hit w n s path media Hc).
    + rewrite (run_showMediaForPath_miss w n s path Hc). cbn zeta.
      destruct (outcome (run w n (announce path s) (collectMedia path)));
        reflexivity.
  - intros listings. cbv zeta.
    destruct (mediaCache s !! path) as [media|] eqn:Hc.
    + rewrite (run_showMediaForPath_hit w n s path media Hc).
      rewrite (run_showMediaForPath_hit w n (setCache listings s) path media Hc).
      repeat split.
    + rewrite (run_showMediaForPath_miss w n s path Hc).
      rewrite (run_showMediaForPath_miss w n (setCache listings s) path Hc).
      cbv zeta.
      rewrite (run_stateless_any w _ (Stateless_collectMedia path) n
                 (announce path s) (announce path (setCache listings s))).
      cbn [outcome trace sent].
      destruct (outcome (run w n (announce path s) (collectMedia path)));
        repeat split.
  - intros Hmiss. rewrite (run_showMediaForPath_miss w n s path Hmiss).
    cbn zeta. split.
    + destruct (trace_collectMedia_starts w n (announce path s) path)
        as (rest & Hrest).
      exists rest.
      destruct (outcome (run w n (announce path s) (collectMedia path)));
        exact Hrest.
    + intros tree Hw e He.
      destruct (run_collectMedia_answered w tree n (announce path s) path Hw)
        as (listing & _ & Hsup & Hcase).
      assert (Hin : In e (trace (run w n (announce path s) (collectMedia path)))).
      { destruct (directChildren tree path ++ nestedChildren tree path).
        - destruct Hcase as (-> & _). apply in_or_app. left. auto.
        - destruct Hcase as [-> _]. auto. }
      destruct (outcome (run w n (announce path s) (collectMedia path)));
        exact Hin.
  - intros media Hhit.
    now rewrite (run_showMediaForPath_hit w n s path media Hhit).
  - intros items container Hhit. unfold loadAndRenderDir. cbn [run].
    rewrite Hhit. reflexivity.
Qed.

Lemma resolver_bypasses_listing_cache_witness :
  (exists rest,
     trace (run (Samples.staticWorld Samples.twoLevels None) 1
              Samples.rootListed (showMediaForPath ""))
     = EvFetch (apiUrl "") :: rest) /\
  run (Samples.staticWorld Samples.twoLevels None) 1 Samples.rootListed
      (loadAndRenderDir "" 7)
  = mkRun (Returned tt) Samples.rootListed
      [EvRenderDir (Samples.treeOf Samples.twoLevels "") 7] 1.
Proof.
  destruct (resolver_bypasses_listing_cache
              (Samples.staticWorld Samples.twoLevels None) 1
              Samples.rootListed "") as (_ & _ & Hmiss & _ & Htree).
  - reflexivity.
  - split.
    + apply Hmiss. vm_compute. reflexivity.
    + apply Htree. vm_compute. reflexivity.
Defined.

End ResolutionFacts.

(** ** Interleaved resolutions *)

Module EventLoopFacts.
Import Async Client Browser EventLoop Observations RunFacts.

(** A resolution past the cache test either stays suspended without
    touching the state, or throws, or publishes its result. *)
Lemma advance_bind_stateless (path : string) (q : Proc MediaList) :
  Stateless q ->
  forall s,
    let '(s', t, _) := advance s (Async.bind q (storeAndRender path)) in
    (exists media, t = Ret tt /\ s' = published path media s) \/
    (s' = s /\ ((exists msg, t = Throw msg) \/ inflight path t)).
Proof.
  induction 1 as [media|msg|url k Hk IH|url k Hk IH|ms k Hk IH|c b k Hk IH
                 |l c k Hk IH]; intros s; cbn [Async.bind advance].
  - left. exists media. split; reflexivity.
  - right. split; [reflexivity|left; now exists msg].
  - right. split; [reflexivity|right].
    exists (Fetch url k). repeat split. now constructor.
  - right. split; [reflexivity|right].
    exists (FetchJson url k). repeat split. now constructor.
  - right. split; [reflexivity|right].
    exists (SetTimeout ms k). repeat split. now constructor.
  - specialize (IH s).
    destruct (advance s (Async.bind k (storeAndRender path))) as [[s' t] ev].
    exact IH.
  - specialize (IH s).
    destruct (advance s (Async.bind k (storeAndRender path))) as [[s' t] ev].
    exact IH.
Qed.

(** Settling what an in-flight resolution waits for. *)
Lemma resume_inflight path t a t' :
  inflight path t -> resume t a = Some t' ->
  exists q, Stateless q /\ t' = Async.bind q (storeAndRender path).
Proof.
  intros (q & Hq & Hsusp & ->) Hres.
  destruct Hq as [media|msg|url k Hk|url k Hk|ms k Hk|c b k Hk|l c k Hk];
    try discriminate Hsusp; destruct a; try discriminate Hres;
    cbn in Hres; injection Hres as <-; eauto.
Qed.

Lemma inflight_not_settled path t : inflight path t -> t <> Ret tt.
Proof.
  intros (q & _ & Hsusp & ->). destruct q; try discriminate Hsusp;
    discriminate.
Qed.

Lemma settle_resolving (c : Config) (i : nat) (a : Answer) (t : Proc unit)
  (path : string) :
  pool c !! i = Some t -> resolving path t ->
  let c' := step c (Settle i a) in
  c' = c \/
  exists t', pool c' = <[i := t']> (pool c) /\ resolving path t' /\
    ((st c' = st c /\ t' <> Ret tt) \/
     (t' = Ret tt /\ t <> Ret tt /\
      exists media, st c' = published path media (st c))).
Proof.
  intros Hi Ht. cbn [step]. rewrite Hi.
  destruct Ht as [Hin|[->|[msg ->]]]; [|left; reflexivity..].
  destruct (resume t a) as [t1|] eqn:Hres; [|left; reflexivity].
  destruct (resume_inflight path t a t1 Hin Hres) as (q & Hq & ->).
  pose proof (advance_bind_stateless path q Hq (st c)) as Hadv.
  destruct (advance (st c) (Async.bind q (storeAndRender path)))
    as [[s' t'] ev].
  right. exists t'. cbn [pool st]. split; [reflexivity|].
  destruct Hadv as [(media & -> & ->)|(-> & [(msg & ->)|Hin'])].
  - split; [right; left; reflexivity|]. right.
    split; [reflexivity|]. split; [now apply (inflight_not_settled path)|].
    now exists media.
  - split; [right; right; now exists msg|]. left. split; [reflexivity|discriminate].
  - split; [now left|]. left.
    split; [reflexivity|now apply (inflight_not_settled path)].
Qed.

Lemma twoResolutions_settle p1 p2 c i a :
  twoResolutions p1 p2 c -> twoResolutions p1 p2 (step c (Settle i a)).
Proof.
  intros (t0 & t1 & Hpool & H0 & H1 & Hpath).
  destruct i as [|[|i]].
  - destruct (settle_resolving c 0 a t0 p1) as [->|(t' & Hp & Hr & Hs)];
      [now rewrite Hpool|exact H0|now exists t0, t1|].
    exists t', t1. rewrite Hp, Hpool. repeat split; auto.
    destruct Hs as [[-> _]|(_ & _ & media & ->)]; exact Hpath.
  - destruct (settle_resolving c 1 a t1 p2) as [->|(t' & Hp & Hr & Hs)];
      [now rewrite Hpool|exact H1|now exists t0, t1|].
    exists t0, t'. rewrite Hp, Hpool. repeat split; auto.
    destruct Hs as [[-> _]|(_ & _ & media & ->)]; exact Hpath.
  - cbn [step]. rewrite Hpool. cbn. now exists t0, t1.
Qed.

Lemma twoResolutions_settlements p1 p2 l :
  forall c, twoResolutions p1 p2 c ->
            twoResolutions p1 p2 (exec c (settlements l)).
Proof.
  induction l as [|[i a] l IH]; intros c Hc; [exact Hc|].
  apply IH. now apply twoResolutions_settle.
Qed.

Lemma inflight_fresh path :
  inflight path (Async.bind (collectMedia path) (storeAndRender path)).
Proof.
  exists (collectMedia path). repeat split.
  apply Stateless_collectMedia.
Qed.

Lemma spawn_show_miss c path :
  mediaCache (st c) !! path = None ->
  spawn c (showMediaForPath path)
  = mkConfig (announce path (st c))
      (pool c ++ [Async.bind (collectMedia path) (storeAndRender path)])
      (log c ++ [EvFetch (apiUrl path)]).
Proof.
  intros Hmiss. unfold spawn, showMediaForPath. cbn [advance].
  change (mediaCache (announce path (st c))) with (mediaCache (st c)).
  rewrite Hmiss. reflexivity.
Qed.

Lemma spawn_show_hit c path media :
  mediaCache (st c) !! path = Some media ->
  spawn c (showMediaForPath path)
  = mkConfig (renderGallery media (announce path (st c)))
      (pool c ++ [Ret tt]) (log c ++ []).
Proof.
  intros Hhit. unfold spawn, showMediaForPath. cbn [advance].
  change (mediaCache (announce path (st c))) with (mediaCache (st c)).
  rewrite Hhit. reflexivity.
Qed.

Lemma twoResolutions_started s0 p1 p2 :
  mediaCache s0 !! p1 = None ->
  twoResolutions p1 p2 (exec (boot s0) [ClickFile p1; ClickFile p2]).
Proof.
  intros Hmiss. unfold exec, boot. cbn [fold_left step].
  rewrite (spawn_show_miss _ p1) by exact Hmiss.
  cbn [st pool log app].
  destruct (mediaCache (announce p1 s0) !! p2) as [media|] eqn:Hc.
  - rewrite (spawn_show_hit _ p2 media) by exact Hc.
    eexists _, _. split; [reflexivity|].
    split; [left; apply inflight_fresh|]. split; [now right; left|reflexivity].
  - rewrite (spawn_show_miss _ p2) by exact Hc.
    eexists _, _. split; [reflexivity|].
    split; [left; apply inflight_fresh|].
    split; [left; apply inflight_fresh|reflexivity].
Qed.

(** C1, counterexample.  [p1] is selected, then [p2]; the listing for [p2]
    arrives first and the one for [p1] afterwards.  Both resolutions
    complete, the result of [p2] is in the media cache, yet the gallery
    and the search base hold the result of [p1], under the path label of
    [p2]. *)
Lemma stale_result_overwrites_counterexample :
  let c := exec (boot initialState) Samples.overtaking in
  completed c 0 /\ completed c 1 /\
  mediaCache (st c) !! "p2" = Some (scanDirect Samples.onlyB) /\
  allVisibleMedia (st c) = scanDirect Samples.oneImage /\
  gallery (st c) = Cards (scanDirect Samples.oneImage) /\
  currentPathText (st c) = "/p2" /\
  scanDirect Samples.oneImage <> scanDirect Samples.onlyB.
Proof.
  cbv zeta. unfold completed.
  repeat (split; [vm_compute; reflexivity|]). discriminate.
Qed.

(** C1, amended.  There is no stale-response guard: the last resolution to
    complete wins.  When [p1] (not in the media cache) is selected, then
    [p2], and after any interleaving of settlements of the two resolutions
    a settlement completes the one for [p1], the gallery and the search
    base hold the result of [p1], which is cached under [p1], while the
    path label still names [p2], whatever the resolution of [p2] did
    before. *)
Theorem last_completion_wins
  (s0 : State) (p1 p2 : string) (schedule : list (nat * Answer)) (a : Answer) :
  mediaCache s0 !! p1 = None ->
  let before :=
    exec (boot s0) ([ClickFile p1; ClickFile p2] ++ settlements schedule) in
  let c := step before (Settle 0 a) in
  ~ completed before 0 ->
  completed c 0 ->
  exists media,
    mediaCache (st c) !! p1 = Some media /\
    allVisibleMedia (st c) = media /\
    gallery (st c) = view media /\
    currentPathText (st c) = "/" +:+ p2.
Proof.
  intros Hmiss before c Hnot Hdone.
  assert (Hinv : twoResolutions p1 p2 before).
  { unfold before, exec. rewrite fold_left_app.
    apply twoResolutions_settlements, twoResolutions_started, Hmiss. }
  destruct Hinv as (t0 & t1 & Hpool & H0 & _ & Hpath).
  destruct (settle_resolving before 0 a t0 p1) as [Heq|(t' & Hp & _ & Hs)];
    [now rewrite Hpool|exact H0| |].
  - exfalso. apply Hnot. fold c in Heq. now rewrite <- Heq.
  - fold c in Hp, Hs. unfold completed in Hdone.
    rewrite Hp, Hpool in Hdone. cbn in Hdone. injection Hdone as ->.
    destruct Hs as [[_ Hne]|(_ & _ & media & Hst)]; [congruence|].
    exists media. rewrite Hst. split; [|split; [|split]].
    + apply lookup_insert_eq.
    + reflexivity.
    + reflexivity.
    + exact Hpath.
Qed.

Lemma last_completion_wins_witness :
  exists media,
    mediaCache
      (st (step (exec (boot initialState)
                   ([ClickFile "p1"; ClickFile "p2"] ++
                    settlements [(1%nat, AFetch (Samples.ok Samples.onlyB))]))
             (Settle 0 (AFetch (Samples.ok Samples.oneImage))))) !! "p1"
    = Some media /\
    allVisibleMedia
      (st (step (exec (boot initialState)
                   ([ClickFile "p1"; ClickFile "p2"] ++
                    settlements [(1%nat, AFetch (Samples.ok Samples.onlyB))]))
             (Settle 0 (AFetch (Samples.ok Samples.oneImage))))) = media /\
    gallery
      (st (step (exec (boot initialState)
                   ([ClickFile "p1"; ClickFile "p2"] ++
                    settlements [(1%nat, AFetch (Samples.ok Samples.onlyB))]))
             (Settle 0 (AFetch (Samples.ok Samples.oneImage))))) = view media /\
    currentPathText
      (st (step (exec (boot initialState)
                   ([ClickFile "p1"; ClickFile "p2"] ++
                    settlements [(1%nat, AFetch (Samples.ok Samples.onlyB))]))
             (Settle 0 (AFetch (Samples.ok Samples.oneImage))))) = "/" +:+ "p2".
Proof.
  apply (last_completion_wins initialState "p1" "p2"
           [(1%nat, AFetch (Samples.ok Samples.onlyB))]
           (AFetch (Samples.ok Samples.oneImage))).
  - reflexivity.
  - unfold completed. vm_compute. discriminate.
  - unfold completed. vm_compute. reflexivity.
Defined.

End EventLoopFacts.

(** ** Search *)

Module SearchFacts.
Import JsString Classifier Async Browser Observations.

Lemma startsWith_prefix (q s : string) :
  startsWith q s = true <-> exists post, s = q +:+ post.
Proof.
  revert s. induction q as [|a q IH]; intros s.
  - split; [intros _; now exists s|reflexivity].
  - destruct s as [|b s]; simpl.
    + split; [discriminate|]. intros (post & H). discriminate H.
    + rewrite andb_true_iff, Ascii.eqb_eq, IH. split.
      * intros (-> & post & ->). now exists post.
      * intros (post & H). injection H as -> ->. eauto.
Qed.

(** [includes] is the substring test. *)
Lemma includes_substring (s q : string) :
  includes s q = true <-> exists pre post, s = pre +:+ q +:+ post.
Proof.
  split.
  - induction s as [|c r IH]; cbn [includes]; intros H;
      apply orb_prop in H as [H|H].
    + apply startsWith_prefix in H as (post & ->). now exists EmptyString, post.
    + discriminate H.
    + apply startsWith_prefix in H as (post & ->). now exists EmptyString, post.
    + destruct (IH H) as (pre & post & ->). now exists (String c pre), post.
  - intros (pre & post & ->). induction pre as [|c pre IH].
    + change (includes (q +:+ post) q = true).
      assert (Hs : startsWith q (q +:+ post) = true)
        by (apply startsWith_prefix; now exists post).
      destruct (q +:+ post); cbn [includes]; now rewrite Hs.
    + change (includes (String c (pre +:+ q +:+ post)) q = true).
      cbn [includes]. rewrite IH. apply orb_true_r.
Qed.

(** One keystroke: what is shown afterwards, and what is left alone. *)
Lemma onSearchInput_shows (value : string) (s : State) :
  let q := toLowerCase (trim value) in
  let shown :=
    if String.eqb q "" then allVisibleMedia s
    else List.filter
           (fun item => includes (toLowerCase (MediaItem.name item)) q)
           (allVisibleMedia s) in
  gallery (onSearchInput value s) = view shown /\
  allVisibleMedia (onSearchInput value s) = shown /\
  mediaCache (onSearchInput value s) = mediaCache s /\
  cache (onSearchInput value s) = cache s.
Proof.
  cbv zeta. unfold onSearchInput.
  destruct (toLowerCase (trim value)) as [|c q]; cbn; repeat split.
Qed.

Example search_hit :
  allVisibleMedia
    (onSearchInput "do" (renderGallery [Samples.cat; Samples.dog] initialState))
  = [Samples.dog].
Proof. reflexivity. Qed.

Example search_ignores_case :
  allVisibleMedia
    (onSearchInput " CAT " (renderGallery [Samples.cat; Samples.dog] initialState))
  = [Samples.cat].
Proof. reflexivity. Qed.

(** C2, the script on the input of the claim.  With the resolved list
    [cat.png, dog.mp4] shown, typing [do] leaves [dog.mp4] in the gallery,
    and the listener stores that filtered list as the list to search in;
    clearing the box then renders [dog.mp4] alone again: [cat.png] does not
    come back. *)
Theorem search_does_not_restore_base :
  let s0 := renderGallery [Samples.cat; Samples.dog] initialState in
  let s1 := onSearchInput "do" s0 in
  let s2 := onSearchInput "" s1 in
  gallery s1 = Cards [Samples.dog] /\
  allVisibleMedia s1 = [Samples.dog] /\
  gallery s2 = Cards [Samples.dog] /\
  allVisibleMedia s2 = [Samples.dog].
Proof. repeat split. Qed.

End SearchFacts.

(** ** Remote listing client: effort and failures *)

Module ClientBounds.
Import Async Client Observations Measures ClientFacts.

Lemma waitBudget_nonneg remaining :
  forall attempt, 0 <= attempt -> 0 <= waitBudget remaining attempt.
Proof.
  induction remaining as [|remaining IH]; intros attempt Ha; cbn [waitBudget].
  - lia.
  - specialize (IH (attempt + 1) ltac:(lia)).
    pose proof (Z.pow_nonneg 2 (attempt + 1) ltac:(lia)). lia.
Qed.

Lemma requestCount_logged_fetch {A} url (r : Run A) :
  requestCount (logged (EvFetch url) r) = S (requestCount r).
Proof. reflexivity. Qed.

(** The loop never iterates more often than its guard allows, and never
    pauses longer than the pauses that are left. *)
Lemma ghFetchLoop_effort w s url :
  forall remaining attempt n,
    0 <= attempt ->
    let r := run w n s (ghFetchLoop remaining attempt url) in
    (requestCount r <= remaining)%nat /\
    (0 < remaining -> 0 < requestCount r)%nat /\
    sent r = (n + requestCount r)%nat /\
    0 <= totalWait (trace r) <= waitBudget remaining attempt.
Proof.
  induction remaining as [|remaining IH]; intros attempt n Ha; cbv zeta.
  - cbn. repeat split; lia.
  - cbn [ghFetchLoop run]. rewrite requestCount_logged_fetch.
    cbn [logged trace sent totalWait waitBudget].
    pose proof (waitBudget_nonneg remaining (attempt + 1) ltac:(lia)) as Hb.
    pose proof (Z.pow_nonneg 2 (attempt + 1) ltac:(lia)) as Hp.
    destruct (respond w n url) as [|res].
    { cbn. repeat split; lia. }
    destruct (status res =? 200).
    { destruct (json res); cbn; repeat split; lia. }
    destruct ((status res =? 403) || (status res =? 429)).
    + cbn [run]. unfold requestCount.
      cbn [logged trace sent totalWait requests List.filter isRequest].
      destruct (IH (attempt + 1) (S n) ltac:(lia)) as (Hle & _ & Hsent & Hw).
      unfold requestCount in Hle, Hsent. fold (requests (trace
        (run w (S n) s (ghFetchLoop remaining (attempt + 1) url)))).
      repeat split; lia.
    + destruct (status res =? 404); [cbn; repeat split; lia|].
      destruct (text res); cbn; repeat split; lia.
Qed.

(** X1.  Whatever the network answers, one call of [ghFetch] sends at
    least one and at most five requests, all of them to the URL of its
    path, spends at most 31 seconds in back-off pauses and leaves the page
    state alone. *)
Theorem ghFetch_bounded_effort (w : World) (n : nat) (s : State) (path : string) :
  let r := run w n s (ghFetch path) in
  (1 <= requestCount r <= 5)%nat /\
  sent r = (n + requestCount r)%nat /\
  (forall e, In e (requests (trace r)) -> e = EvFetch (apiUrl path)) /\
  0 <= totalWait (trace r) <= 31000 /\
  final r = s.
Proof.
  cbv zeta.
  destruct (ghFetchLoop_effort w s (apiUrl path) 5 0 n ltac:(lia))
    as (Hle & Hpos & Hsent & Hw).
  fold (ghFetch path) in Hle, Hpos, Hsent, Hw.
  change (waitBudget 5 0) with 31000 in Hw.
  split; [split; [apply Hpos; lia|exact Hle]|].
  split; [exact Hsent|]. split; [|split; [exact Hw|]].
  - intros e. apply RunFacts.requests_ghFetchLoop.
  - apply RunFacts.run_stateless, RunFacts.Stateless_ghFetch.
Qed.

(** X2.  A request that fails on the network, or a success response whose
    body cannot be parsed, is not retried: [ghFetch] throws at once, having
    sent nothing after the failed request, also when throttled responses
    came before it. *)
Theorem ghFetch_gives_up_on_failure
  (w : World) (n : nat) (s : State) (path : string) (k : nat) :
  (k < 5)%nat ->
  (forall i, (i < k)%nat ->
     isThrottled (respond w (n + i) (apiUrl path)) = true) ->
  (respond w (n + k) (apiUrl path) = Rejected \/
   exists res, respond w (n + k) (apiUrl path) = Responded res /\
               status res = 200 /\ json res = None) ->
  exists msg,
    run w n s (ghFetch path) =
      mkRun (Threw msg) s
        (backoff (apiUrl path) 0 k ++ [EvFetch (apiUrl path)]) (S (n + k)).
Proof.
  intros Hk Hth Hfail. unfold ghFetch.
  rewrite (ghFetchLoop_throttled w s (apiUrl path) k 5 0 n); [|lia|exact Hth].
  destruct (5 - k)%nat as [|remaining] eqn:Hrem; [lia|].
  cbn [ghFetchLoop run].
  destruct Hfail as [->|(res & -> & H200 & Hjson)].
  - eexists. reflexivity.
  - rewrite H200, Hjson. eexists. reflexivity.
Qed.

Lemma ghFetch_gives_up_on_failure_witness :
  exists msg,
    run MoreSamples.offline 0 initialState (ghFetch "docs") =
      mkRun (Threw msg) initialState [EvFetch (apiUrl "docs")] 1.
Proof.
  apply (ghFetch_gives_up_on_failure MoreSamples.offline 0 initialState
           "docs" 0).
  - lia.
  - intros i Hi. lia.
  - left. reflexivity.
Defined.

End ClientBounds.

(** ** The listing cache *)

Module ListingCacheFacts.
Import Async Client Browser EventLoop Observations Measures Tree.
Import ClientFacts RunFacts.

Lemma run_loadAndRenderDir_hit w n s path container items :
  cache s !! path = Some items ->
  run w n s (loadAndRenderDir path container)
  = mkRun (Returned tt) s [EvRenderDir items container] n.
Proof. intros Hhit. unfold loadAndRenderDir. cbn [run]. now rewrite Hhit. Qed.

Lemma run_loadAndRenderDir_miss w n s path container :
  cache s !! path = None ->
  run w n s (loadAndRenderDir path container) =
    let r := run w n s (ghFetch path) in
    match outcome r with
    | Returned items =>
        mkRun (Returned tt) (setCache (<[path := items]> (cache s)) s)
          (trace r ++ [EvRenderDir items container]) (sent r)
    | Threw msg => mkRun (Threw msg) s (trace r) (sent r)
    end.
Proof.
  intros Hmiss. unfold loadAndRenderDir. cbn [run]. rewrite Hmiss.
  rewrite run_bind. cbv zeta.
  rewrite (run_stateless w _ (Stateless_ghFetch path)).
  destruct (outcome (run w n s (ghFetch path))); reflexivity.
Qed.

Lemma renderedListing_app_render tr items container :
  renderedListing (tr ++ [EvRenderDir items container]) = Some items.
Proof.
  induction tr as [|e tr IH]; [reflexivity|].
  cbn [app renderedListing]. rewrite IH. now destruct e.
Qed.

Lemma renderedListing_ghFetchLoop w s url :
  forall remaining attempt n,
    renderedListing (trace (run w n s (ghFetchLoop remaining attempt url)))
    = None.
Proof.
  induction remaining as [|remaining IH]; intros attempt n;
    cbn [ghFetchLoop run logged trace renderedListing]; [reflexivity|].
  destruct (respond w n url) as [|res]; [reflexivity|].
  destruct (status res =? 200); [destruct (json res); reflexivity|].
  destruct ((status res =? 403) || (status res =? 429)).
  - cbn [run logged trace renderedListing]. apply IH.
  - destruct (status res =? 404); [reflexivity|].
    destruct (text res); reflexivity.
Qed.

(** X3.  A load that returns stores the listing it rendered under the
    path, and from then on every load of that path, into whichever
    container and whatever the network would answer, sends no request,
    renders the stored listing and changes nothing. *)
Theorem listing_cache_round_trip w n s path container :
  let r := run w n s (loadAndRenderDir path container) in
  outcome r = Returned tt ->
  exists items,
    cache (final r) !! path = Some items /\
    renderedListing (trace r) = Some items /\
    forall w' n' container',
      run w' n' (final r) (loadAndRenderDir path container')
      = mkRun (Returned tt) (final r) [EvRenderDir items container'] n'.
Proof.
  cbv zeta. intros Hret.
  destruct (cache s !! path) as [items|] eqn:Hc.
  - rewrite (run_loadAndRenderDir_hit w n s path container items Hc).
    exists items. cbn [final trace]. repeat split; [exact Hc|].
    intros w' n' container'. now apply run_loadAndRenderDir_hit.
  - rewrite (run_loadAndRenderDir_miss w n s path container Hc) in *.
    cbv zeta in *.
    destruct (outcome (run w n s (ghFetch path))) as [items|msg];
      [|discriminate Hret].
    exists items. cbn [final trace].
    assert (Hnow : cache (setCache (<[path:=items]> (cache s)) s) !! path
                   = Some items) by apply lookup_insert_eq.
    split; [exact Hnow|]. split; [apply renderedListing_app_render|].
    intros w' n' container'. now apply run_loadAndRenderDir_hit.
Qed.

Lemma listing_cache_round_trip_witness :
  exists items,
    cache (final (run (Samples.staticWorld Samples.twoLevels None) 0
                    initialState (loadAndRenderDir "sub" 3))) !! "sub"
    = Some items /\
    renderedListing
      (trace (run (Samples.staticWorld Samples.twoLevels None) 0
                initialState (loadAndRenderDir "sub" 3))) = Some items /\
    forall w' n' container',
      run w' n'
        (final (run (Samples.staticWorld Samples.twoLevels None) 0
                  initialState (loadAndRenderDir "sub" 3)))
        (loadAndRenderDir "sub" container')
      = mkRun (Returned tt)
          (final (run (Samples.staticWorld Samples.twoLevels None) 0
                    initialState (loadAndRenderDir "sub" 3)))
          [EvRenderDir items container'] n'.
Proof.
  apply (listing_cache_round_trip (Samples.staticWorld Samples.twoLevels None)
           0 initialState "sub" 3).
  reflexivity.
Defined.

(** X4.  When the listing call of a load throws, for a path that has no
    entry in the listing cache and is not the name of an inherited member
    of the cache object, the load throws the same error, stores nothing
    and renders nothing: the page state is as before, and the next load of
    the path starts with a request again. *)
Theorem failed_load_not_remembered w n s path container msg :
  JsObject.inherited path = false ->
  cache s !! path = None ->
  outcome (run w n s (ghFetch path)) = Threw msg ->
  let r := run w n s (loadAndRenderDir path container) in
  outcome r = Threw msg /\
  final r = s /\
  renderedListing (trace r) = None /\
  forall w' n' container',
    exists rest,
      trace (run w' n' (final r) (loadAndRenderDir path container'))
      = EvFetch (apiUrl path) :: rest.
Proof.
  intros _ Hc Hthrow. cbv zeta.
  rewrite (run_loadAndRenderDir_miss w n s path container Hc).
  cbv zeta. rewrite Hthrow. cbn [outcome final trace].
  split; [reflexivity|]. split; [reflexivity|].
  split; [apply renderedListing_ghFetchLoop|].
  intros w' n' container'.
  rewrite (run_loadAndRenderDir_miss w' n' s path container' Hc). cbv zeta.
  destruct (trace_ghFetch_head w' n' s path) as (rest & Hrest).
  destruct (outcome (run w' n' s (ghFetch path))); cbn [trace];
    rewrite Hrest; eexists; reflexivity.
Qed.

Lemma failed_load_not_remembered_witness :
  outcome (run MoreSamples.offline 0 initialState (loadAndRenderDir "docs" 1))
  = Threw "TypeError: Failed to fetch" /\
  final (run MoreSamples.offline 0 initialState (loadAndRenderDir "docs" 1))
  = initialState /\
  renderedListing
    (trace (run MoreSamples.offline 0 initialState (loadAndRenderDir "docs" 1)))
  = None /\
  forall w' n' container',
    exists rest,
      trace (run w' n'
               (final (run MoreSamples.offline 0 initialState
                         (loadAndRenderDir "docs" 1)))
               (loadAndRenderDir "docs" container'))
      = EvFetch (apiUrl "docs") :: rest.
Proof.
  apply (failed_load_not_remembered MoreSamples.offline 0 initialState "docs" 1
           "TypeError: Failed to fetch").
  - reflexivity.
  - reflexivity.
  - reflexivity.
Defined.

(** The same for a body that cannot be read: the load of a folder whose
    listing call got status 502 throws and leaves the cache as it was. *)
Example unreadable_body_not_remembered :
  run (Samples.throttlingWorld 0 MoreSamples.unreadable) 0 initialState
      (loadAndRenderDir "docs" 1)
  = mkRun (Threw "TypeError: Failed to read the response body") initialState
      [EvFetch (apiUrl "docs")] 1.
Proof. reflexivity. Qed.

(** The listing call answers "not found", or an unexpected status with a
    body that can be read, after [k] throttled responses. *)
Lemma ghFetch_empty_outcome w n s path k res :
  (k < 5)%nat ->
  (forall i, (i < k)%nat ->
     isThrottled (respond w (n + i) (apiUrl path)) = true) ->
  respond w (n + k) (apiUrl path) = Responded res ->
  status res <> 200 -> status res <> 403 -> status res <> 429 ->
  status res = 404 \/ (exists body, text res = Some body) ->
  outcome (run w n s (ghFetch path)) = Returned [].
Proof.
  intros Hk Hth Hres H200 H403 H429 Hbody. unfold ghFetch.
  rewrite (ghFetchLoop_throttled w s (apiUrl path) k 5 0 n); [|lia|exact Hth].
  destruct (5 - k)%nat as [|remaining] eqn:Hrem; [lia|].
  cbn [ghFetchLoop run prefixed logged outcome]. rewrite Hres.
  apply Z.eqb_neq in H200, H403, H429. rewrite H200, H403, H429.
  cbn [orb]. destruct (status res =? 404) eqn:H404; [reflexivity|].
  destruct Hbody as [H|(body & ->)]; [|reflexivity].
  apply Z.eqb_neq in H404. contradiction.
Qed.

(** X5.  An error answer is remembered as an empty folder.  When the
    listing call of an uncached path (not the name of an inherited member
    of the cache object) gets "not found", or any status other than 200,
    403 and 429 with a body that can be read, the empty listing is stored
    under the path, and every later load of the path renders the empty
    listing without asking the network, whatever the network would answer
    by then. *)
Theorem error_cached_as_empty w n s path container k res :
  JsObject.inherited path = false ->
  cache s !! path = None ->
  (k < 5)%nat ->
  (forall i, (i < k)%nat ->
     isThrottled (respond w (n + i) (apiUrl path)) = true) ->
  respond w (n + k) (apiUrl path) = Responded res ->
  status res <> 200 -> status res <> 403 -> status res <> 429 ->
  status res = 404 \/ (exists body, text res = Some body) ->
  let r := run w n s (loadAndRenderDir path container) in
  outcome r = Returned tt /\
  cache (final r) !! path = Some [] /\
  forall w' n' container',
    run w' n' (final r) (loadAndRenderDir path container')
    = mkRun (Returned tt) (final r) [EvRenderDir [] container'] n'.
Proof.
  intros _ Hmiss Hk Hth Hres H200 H403 H429 Hbody. cbv zeta.
  rewrite (run_loadAndRenderDir_miss w n s path container Hmiss). cbv zeta.
  rewrite (ghFetch_empty_outcome w n s path k res Hk Hth Hres H200 H403 H429
             Hbody).
  cbn [outcome final].
  assert (Hnow : cache (setCache (<[path:=[]]> (cache s)) s) !! path = Some [])
    by apply lookup_insert_eq.
  split; [reflexivity|]. split; [exact Hnow|].
  intros w' n' container'. now apply run_loadAndRenderDir_hit.
Qed.

Lemma error_cached_as_empty_witness :
  outcome (run (Samples.throttlingWorld 0 Samples.serverError) 0 initialState
             (loadAndRenderDir "" 1)) = Returned tt /\
  cache (final (run (Samples.throttlingWorld 0 Samples.serverError) 0
                  initialState (loadAndRenderDir "" 1))) !! "" = Some [] /\
  forall w' n' container',
    run w' n'
      (final (run (Samples.throttlingWorld 0 Samples.serverError) 0
                initialState (loadAndRenderDir "" 1)))
      (loadAndRenderDir "" container')
    = mkRun (Returned tt)
        (final (run (Samples.throttlingWorld 0 Samples.serverError) 0
                  initialState (loadAndRenderDir "" 1)))
        [EvRenderDir [] container'] n'.
Proof.
  apply (error_cached_as_empty (Samples.throttlingWorld 0 Samples.serverError)
           0 initialState "" 1 0
           (mkResponse 500 None (Some "Internal Server Error"))).
  - reflexivity.
  - reflexivity.
  - lia.
  - intros i Hi. lia.
  - reflexivity.
  - discriminate.
  - discriminate.
  - discriminate.
  - right. eexists. reflexivity.
Defined.

End ListingCacheFacts.

(** ** Media resolution: failures and the media cache *)

Module MediaCacheFacts.
Import Async Client Browser Observations Measures.
Import ResolverFacts RunFacts ResolutionFacts.

Lemma typed_mediaCache values :
  forall s, mediaCache (typed values s) = mediaCache s.
Proof.
  unfold typed. induction values as [|v values IH]; intros s; [reflexivity|].
  cbn [fold_left]. rewrite IH. unfold onSearchInput.
  destruct (JsString.toLowerCase (JsString.trim v)); reflexivity.
Qed.

(** X6.  A resolution that throws, of a path that is not the name of an
    inherited member of the cache object, shows nothing and stores
    nothing: the gallery keeps the loading placeholder under the label of
    the requested path, and the search base and both caches are as before,
    so the path is still uncached. *)
Theorem failed_resolution_keeps_loading w n s path :
  JsObject.inherited path = false ->
  let r := run w n s (showMediaForPath path) in
  (exists msg, outcome r = Threw msg) ->
  gallery (final r) = LoadingPlaceholder /\
  currentPathText (final r) = "/" +:+ path /\
  allVisibleMedia (final r) = allVisibleMedia s /\
  mediaCache (final r) = mediaCache s /\
  cache (final r) = cache s /\
  mediaCache (final r) !! path = None.
Proof.
  cbv zeta. intros _ (msg & Hthrow).
  destruct (mediaCache s !! path) as [media|] eqn:Hc.
  - rewrite (run_showMediaForPath_hit w n s path media Hc) in Hthrow.
    discriminate Hthrow.
  - rewrite (run_showMediaForPath_miss w n s path Hc) in *. cbv zeta in *.
    destruct (outcome (run w n (announce path s) (collectMedia path)));
      [discriminate Hthrow|].
    cbn. repeat split. exact Hc.
Qed.

Lemma failed_resolution_keeps_loading_witness :
  gallery (final (run MoreSamples.offline 0 initialState
                    (showMediaForPath "docs"))) = LoadingPlaceholder /\
  currentPathText (final (run MoreSamples.offline 0 initialState
                            (showMediaForPath "docs"))) = "/" +:+ "docs" /\
  allVisibleMedia (final (run MoreSamples.offline 0 initialState
                            (showMediaForPath "docs")))
  = allVisibleMedia initialState /\
  mediaCache (final (run MoreSamples.offline 0 initialState
                       (showMediaForPath "docs"))) = mediaCache initialState /\
  cache (final (run MoreSamples.offline 0 initialState
                  (showMediaForPath "docs"))) = cache initialState /\
  mediaCache (final (run MoreSamples.offline 0 initialState
                       (showMediaForPath "docs"))) !! "docs" = None.
Proof.
  apply (failed_resolution_keeps_loading MoreSamples.offline 0 initialState
           "docs").
  - reflexivity.
  - eexists. reflexivity.
Defined.

Lemma scanSubfolders_skip_files before :
  (forall x, In x before -> isDirEntry x = false) ->
  forall rest media,
    scanSubfolders (before ++ rest) media = scanSubfolders rest media.
Proof.
  induction before as [|x before IH]; intros Hfiles rest media; [reflexivity|].
  cbn [app scanSubfolders].
  change (String.eqb (Entry.type x) "dir") with (isDirEntry x).
  rewrite (Hfiles x ltac:(now left)). apply IH.
  intros y Hy. apply Hfiles. now right.
Qed.

(** X7.  One failing subfolder fails the whole resolution.  When the
    listing of an uncached path (not the name of an inherited member of
    the cache object) arrives but the listing call for its first
    subdirectory throws, the resolution throws the same error: the media
    files found directly in the path are neither shown nor cached. *)
Theorem failing_subfolder_fails_resolution
  w n s path items before d after msg :
  JsObject.inherited path = false ->
  mediaCache s !! path = None ->
  outcome (run w n s (ghFetch path)) = Returned items ->
  firstDir items before d after ->
  outcome (run w (sent (run w n s (ghFetch path))) s (ghFetch (Entry.path d)))
    = Threw msg ->
  let r := run w n s (showMediaForPath path) in
  outcome r = Threw msg /\
  final r = announce path s /\
  mediaCache (final r) !! path = None.
Proof.
  intros _ Hmiss Hfirst (-> & Hdir & Hfiles) Hsub. cbv zeta.
  rewrite (run_showMediaForPath_miss w n s path Hmiss). cbv zeta.
  assert (Hout : outcome (run w n (announce path s) (collectMedia path))
                 = Threw msg).
  { rewrite (run_stateless_any w _ (Stateless_collectMedia path) n s
               (announce path s)).
    cbn [outcome]. unfold collectMedia.
    rewrite run_bind. cbv zeta. rewrite Hfirst.
    rewrite (run_stateless w _ (Stateless_ghFetch path)).
    cbn [prefixed outcome]. rewrite run_bind. cbv zeta.
    rewrite (scanSubfolders_skip_files before Hfiles).
    cbn [scanSubfolders].
    change (String.eqb (Entry.type d) "dir") with (isDirEntry d).
    rewrite Hdir, run_bind. cbv zeta. rewrite Hsub. reflexivity. }
  rewrite Hout. cbn [outcome final]. repeat split. exact Hmiss.
Qed.

Lemma failing_subfolder_fails_resolution_witness :
  outcome (run MoreSamples.subThrottled 0 initialState (showMediaForPath ""))
  = Threw unavailable /\
  final (run MoreSamples.subThrottled 0 initialState (showMediaForPath ""))
  = announce "" initialState /\
  mediaCache
    (final (run MoreSamples.subThrottled 0 initialState (showMediaForPath "")))
    !! "" = None.
Proof.
  apply (failing_subfolder_fails_resolution MoreSamples.subThrottled 0
           initialState "" (Samples.twoLevels (apiUrl ""))
           [Samples.file "a.png" "a.png"] (Samples.dir "sub" "sub") []).
  - reflexivity.
  - reflexivity.
  - reflexivity.
  - split; [reflexivity|]. split; [reflexivity|].
    intros x [<-|[]]. reflexivity.
  - reflexivity.
Defined.

(** X8.  A resolution that returns is remembered, for a path that is not
    the name of an inherited member of the cache object: resolving the
    same path again, whatever the network would answer by then, sends no
    request, not even for the fallback manifest, and leaves the page
    exactly as the first resolution left it. *)
Theorem media_cache_round_trip w n s path :
  JsObject.inherited path = false ->
  let r := run w n s (showMediaForPath path) in
  outcome r = Returned tt ->
  exists media,
    mediaCache (final r) !! path = Some media /\
    allVisibleMedia (final r) = media /\
    gallery (final r) = view media /\
    forall w' n',
      run w' n' (final r) (showMediaForPath path)
      = mkRun (Returned tt) (final r) [] n'.
Proof.
  cbv zeta. intros _ Hret.
  destruct (mediaCache s !! path) as [media|] eqn:Hc.
  - rewrite (run_showMediaForPath_hit w n s path media Hc).
    exists media. cbn [final].
    split; [exact Hc|]. split; [reflexivity|]. split; [reflexivity|].
    intros w' n'.
    assert (Hstill : mediaCache (renderGallery media (announce path s)) !! path
                     = Some media) by exact Hc.
    rewrite (run_showMediaForPath_hit w' n' _ path media Hstill). reflexivity.
  - rewrite (run_showMediaForPath_miss w n s path Hc) in *. cbv zeta in *.
    destruct (outcome (run w n (announce path s) (collectMedia path)))
      as [media|msg]; [|discriminate Hret].
    exists media. cbn [final].
    set (s1 := renderGallery media
                 (setMediaCache (<[path:=media]> (mediaCache s))
                    (announce path s))).
    assert (Hnow : mediaCache s1 !! path = Some media)
      by apply lookup_insert_eq.
    split; [exact Hnow|]. split; [reflexivity|]. split; [reflexivity|].
    intros w' n'.
    rewrite (run_showMediaForPath_hit w' n' s1 path media Hnow). reflexivity.
Qed.

Lemma media_cache_round_trip_witness :
  exists media,
    mediaCache
      (final (run (Samples.staticWorld Samples.noMedia None) 0 initialState
                (showMediaForPath ""))) !! "" = Some media /\
    allVisibleMedia
      (final (run (Samples.staticWorld Samples.noMedia None) 0 initialState
                (showMediaForPath ""))) = media /\
    gallery
      (final (run (Samples.staticWorld Samples.noMedia None) 0 initialState
                (showMediaForPath ""))) = view media /\
    forall w' n',
      run w' n'
        (final (run (Samples.staticWorld Samples.noMedia None) 0 initialState
                  (showMediaForPath "")))
        (showMediaForPath "")
      = mkRun (Returned tt)
          (final (run (Samples.staticWorld Samples.noMedia None) 0
                    initialState (showMediaForPath "")))
          [] n'.
Proof.
  apply (media_cache_round_trip (Samples.staticWorld Samples.noMedia None) 0
           initialState "").
  - reflexivity.
  - reflexivity.
Defined.

(** X9.  Searching never damages the media cache: after any series of
    keystrokes, selecting a cached path again shows its complete cached
    list, without a request. *)
Theorem reselect_restores_cached_list w n s path media values :
  mediaCache s !! path = Some media ->
  let r := run w n (typed values s) (showMediaForPath path) in
  outcome r = Returned tt /\
  trace r = [] /\
  allVisibleMedia (final r) = media /\
  gallery (final r) = view media.
Proof.
  intros Hhit. cbv zeta.
  assert (Hstill : mediaCache (typed values s) !! path = Some media)
    by now rewrite typed_mediaCache.
  rewrite (run_showMediaForPath_hit w n _ path media Hstill).
  repeat split.
Qed.

Lemma reselect_restores_cached_list_witness :
  allVisibleMedia
    (final (run MoreSamples.offline 0
              (typed ["do"; ""]
                 (final (run (Samples.staticWorld Samples.twoLevels None) 0
                           initialState (showMediaForPath ""))))
              (showMediaForPath "")))
  = List.map (directItem (Samples.twoLevels (apiUrl "")))
      [Samples.file "a.png" "a.png"]
    ++ [subItem (Samples.file "b.png" "sub/b.png")].
Proof.
  refine (proj1 (proj2 (proj2
    (reselect_restores_cached_list MoreSamples.offline 0
       (final (run (Samples.staticWorld Samples.twoLevels None) 0
                 initialState (showMediaForPath "")))
       "" _ ["do"; ""] _)))).
  vm_compute. reflexivity.
Defined.

End MediaCacheFacts.

(** ** Resolved items, their posters and how they are shown *)

Module ItemFacts.
Import JsString Classifier Async Client Browser Observations Gallery.
Import JsStringFacts ClassifierFacts ResolverFacts.

Lemma lower_char_slash (c : ascii) :
  Ascii.eqb (lower_char c) slash = Ascii.eqb c slash.
Proof.
  destruct c as [[] [] [] [] [] [] [] []]; vm_compute; reflexivity.
Qed.

Lemma ext_char_toLowerCase (e : string) :
  all_chars ext_char (toLowerCase e) = all_chars ext_char e.
Proof.
  induction e as [|c e IH]; [reflexivity|].
  cbn [toLowerCase all_chars]. unfold ext_char at 1 3.
  now rewrite lower_char_slash, lower_char_dot, IH.
Qed.

(** The extension of a media file is not empty and holds no ['/']. *)
Lemma media_extension_plain (base e : string) :
  Spec.dotless e ->
  isMediaFile (base +:+ String dot e) = true ->
  e <> EmptyString /\ all_chars ext_char e = true.
Proof.
  intros He Hmedia. unfold isMediaFile in Hmedia.
  rewrite extOf_afterLastDot, (afterLastDot_app base e He) in Hmedia.
  cbn [from_option id] in Hmedia. split.
  - intros ->. discriminate Hmedia.
  - rewrite <- ext_char_toLowerCase. unfold str_in in Hmedia.
    cbn [existsb] in Hmedia.
    repeat (apply orb_prop in Hmedia as [Hmedia|Hmedia]);
      try discriminate Hmedia;
      apply String.eqb_eq in Hmedia; rewrite Hmedia; reflexivity.
Qed.

Lemma resolved_from_entry items m :
  In m (scanDirect items) \/ In m (scanSub items []) ->
  exists it, In it items /\ isMediaEntry it = true /\
    (m = directItem items it \/ m = subItem it).
Proof.
  rewrite scanDirect_filter, scanSub_filter_eq. cbn [app].
  intros [Hm|Hm]; apply in_map_iff in Hm as (it & <- & Hit);
    apply filter_In in Hit as [Hin Hmedia]; exists it; auto.
Qed.

(** X10.  Every item the resolver builds from a listing comes from an
    entry of type file of that listing, has the raw URL of its path as
    source, and is labelled by its extension: [video] when the extension
    is a video extension, and otherwise [image], in which case the
    extension is an image extension. *)
Theorem resolved_items_well_formed (items : Listing) (m : MediaItem.t) :
  In m (scanDirect items) \/ In m (scanSub items []) ->
  exists it,
    In it items /\ Entry.type it = "file" /\
    MediaItem.name m = Entry.name it /\ MediaItem.path m = Entry.path it /\
    MediaItem.src m = rawUrl (MediaItem.path m) /\
    ((MediaItem.type m = "video" /\ isVideo (MediaItem.name m) = true /\
      isImage (MediaItem.name m) = false) \/
     (MediaItem.type m = "image" /\ isImage (MediaItem.name m) = true /\
      isVideo (MediaItem.name m) = false)).
Proof.
  intros Hm. destruct (resolved_from_entry items m Hm)
    as (it & Hin & Hmedia & Hshape).
  exists it. unfold isMediaEntry in Hmedia.
  apply andb_prop in Hmedia as [Hfile Hmedia].
  apply String.eqb_eq in Hfile. rewrite isMediaFile_split in Hmedia.
  assert (Hlabel :
    (mimetype (Entry.name it) = "video" /\ isVideo (Entry.name it) = true /\
     isImage (Entry.name it) = false) \/
    (mimetype (Entry.name it) = "image" /\ isImage (Entry.name it) = true /\
     isVideo (Entry.name it) = false)).
  { unfold mimetype. destruct (isVideo (Entry.name it)) eqn:Hv.
    - left. repeat split.
      destruct (isImage (Entry.name it)) eqn:Hi; [|reflexivity].
      rewrite (image_video_disjoint _ Hi) in Hv. discriminate Hv.
    - right. rewrite orb_false_r in Hmedia. repeat split. exact Hmedia. }
  destruct Hshape as [->| ->]; cbn; repeat split; auto.
Qed.

Lemma resolved_items_well_formed_witness :
  exists it,
    In it Samples.clipWithPoster /\ Entry.type it = "file" /\
    MediaItem.name (directItem Samples.clipWithPoster
                      (Samples.file "clip.mp4" "clip.mp4")) = Entry.name it /\
    MediaItem.path (directItem Samples.clipWithPoster
                      (Samples.file "clip.mp4" "clip.mp4")) = Entry.path it /\
    MediaItem.src (directItem Samples.clipWithPoster
                     (Samples.file "clip.mp4" "clip.mp4"))
    = rawUrl (MediaItem.path (directItem Samples.clipWithPoster
                                (Samples.file "clip.mp4" "clip.mp4"))) /\
    ((MediaItem.type (directItem Samples.clipWithPoster
                        (Samples.file "clip.mp4" "clip.mp4")) = "video" /\
      isVideo (MediaItem.name (directItem Samples.clipWithPoster
                                 (Samples.file "clip.mp4" "clip.mp4"))) = true /\
      isImage (MediaItem.name (directItem Samples.clipWithPoster
                                 (Samples.file "clip.mp4" "clip.mp4"))) = false)
     \/
     (MediaItem.type (directItem Samples.clipWithPoster
                        (Samples.file "clip.mp4" "clip.mp4")) = "image" /\
      isImage (MediaItem.name (directItem Samples.clipWithPoster
                                 (Samples.file "clip.mp4" "clip.mp4"))) = true /\
      isVideo (MediaItem.name (directItem Samples.clipWithPoster
                                 (Samples.file "clip.mp4" "clip.mp4"))) = false)).
Proof.
  apply (resolved_items_well_formed Samples.clipWithPoster).
  left. simpl. left. reflexivity.
Defined.

(** X11.  The poster heuristic finds the sibling it is meant to find.
    For a media file [d ++ base.e] whose name does not occur earlier in
    its path, when the listing has an entry at [d ++ base.x] for one of
    the extensions jpg, jpeg, webp, png and none at an extension before
    [x] in that order, the poster of the item is the raw URL of
    [d ++ base.x]. *)
Theorem sibling_image_becomes_poster
  (items : Listing) (it : Entry.t) (d base e x : string)
  (before after : list string) :
  Entry.name it = base +:+ String dot e ->
  Spec.dotless e ->
  isMediaFile (Entry.name it) = true ->
  Entry.path it = d +:+ Entry.name it ->
  (forall i, (i < String.length d)%nat ->
             startsWith (Entry.name it) (sliceFrom i (Entry.path it)) = false) ->
  ["jpg"; "jpeg"; "webp"; "png"] = before ++ x :: after ->
  listed items (d +:+ base +:+ "." +:+ x) ->
  (forall y, In y before -> ~ listed items (d +:+ base +:+ "." +:+ y)) ->
  MediaItem.poster (directItem items it)
  = Some (rawUrl (d +:+ base +:+ "." +:+ x)).
Proof.
  intros Hname He Hmedia Hpath Hfirst Hexts Hx Hbefore.
  rewrite Hname in Hmedia.
  destruct (media_extension_plain base e He Hmedia) as [Hne Hplain].
  change (findPoster items (posterCandidates it)
          = Some (rawUrl (d +:+ base +:+ "." +:+ x))).
  rewrite (posterCandidates_plain it d base e Hname Hne Hplain Hpath Hfirst).
  rewrite Hexts, map_app. cbn [List.map].
  apply findPoster_first; [|exact Hx].
  intros q Hq. apply in_map_iff in Hq as (y & <- & Hy). now apply Hbefore.
Qed.

Lemma sibling_image_becomes_poster_witness :
  MediaItem.poster
    (directItem MoreSamples.clipInFolder (Samples.file "clip.mp4" "v/clip.mp4"))
  = Some (rawUrl ("v/" +:+ "clip" +:+ "." +:+ "jpg")).
Proof.
  apply (sibling_image_becomes_poster MoreSamples.clipInFolder
           (Samples.file "clip.mp4" "v/clip.mp4") "v/" "clip" "mp4" "jpg"
           [] ["jpeg"; "webp"; "png"]).
  - reflexivity.
  - reflexivity.
  - reflexivity.
  - reflexivity.
  - intros i Hi. destruct i as [|[|i]]; [reflexivity..|simpl in Hi; lia].
  - reflexivity.
  - exists (Samples.file "clip.jpg" "v/clip.jpg"). split; [|reflexivity].
    simpl. auto.
  - intros y [].
Defined.

Lemma findPoster_truthy items cands :
  match findPoster items cands with
  | Some u => truthy (Some u) = true
  | None => True
  end.
Proof.
  induction cands as [|p rest IH]; cbn [findPoster]; [exact I|].
  destruct (existsb _ items); [reflexivity|exact IH].
Qed.

(** X12.  How a resolved item is shown follows its extension.  A file
    with a video extension gets the VIDEO badge and a player on its raw
    URL, with the poster the resolver found as thumbnail and player
    poster, or the video's own URL as thumbnail when none was found.  Any
    other resolved item gets the IMAGE badge, and both its thumbnail and
    the viewer show its own raw URL: a poster set on an image item is
    never displayed. *)
Theorem resolved_items_display (items : Listing) (m : MediaItem.t) :
  In m (scanDirect items) \/ In m (scanSub items []) ->
  (isVideo (MediaItem.name m) = true ->
   badge (cardOf m) = "VIDEO" /\
   thumbSrc (cardOf m)
   = default (rawUrl (MediaItem.path m)) (MediaItem.poster m) /\
   viewerOf m = VideoPlayer (rawUrl (MediaItem.path m)) (MediaItem.poster m))
  /\
  (isVideo (MediaItem.name m) = false ->
   badge (cardOf m) = "IMAGE" /\
   thumbSrc (cardOf m) = rawUrl (MediaItem.path m) /\
   viewerOf m = ImageView (rawUrl (MediaItem.path m)) (MediaItem.name m)).
Proof.
  intros Hm. destruct (resolved_from_entry items m Hm)
    as (it & _ & _ & Hshape).
  pose proof (findPoster_truthy items (posterCandidates it)) as Hposter.
  split; intros Hv;
    destruct Hshape as [->| ->];
    change (isVideo (Entry.name it) = true) in Hv
    || change (isVideo (Entry.name it) = false) in Hv;
    unfold cardOf, viewerOf, isVideoItem, directItem, subItem, mimetype;
    cbn [MediaItem.type MediaItem.poster MediaItem.src MediaItem.path
         MediaItem.name badge thumbSrc];
    rewrite Hv; cbn [String.eqb Ascii.eqb Bool.eqb andb truthy default];
    try (repeat split; fail).
  destruct (findPoster items (posterCandidates it)) as [u|].
  - rewrite Hposter. repeat split.
  - repeat split.
Qed.

Lemma resolved_items_display_witness :
  badge (cardOf (directItem Samples.stillOnly (Samples.file "a.jpg" "a.jpg")))
  = "IMAGE" /\
  thumbSrc (cardOf (directItem Samples.stillOnly (Samples.file "a.jpg" "a.jpg")))
  = rawUrl "a.jpg" /\
  viewerOf (directItem Samples.stillOnly (Samples.file "a.jpg" "a.jpg"))
  = ImageView (rawUrl "a.jpg") "a.jpg".
Proof.
  apply (proj2 (resolved_items_display Samples.stillOnly
                  (directItem Samples.stillOnly (Samples.file "a.jpg" "a.jpg"))
                  (or_introl (or_introl eq_refl)))).
  reflexivity.
Defined.

(** X13.  The three extension lists are consistent: a name is a media
    file exactly when it is an image or a video, and never both. *)
Theorem media_extensions_partition (name : string) :
  isMediaFile name = xorb (isImage name) (isVideo name).
Proof.
  rewrite isMediaFile_split.
  destruct (isImage name) eqn:Hi; [|reflexivity].
  now rewrite (image_video_disjoint name Hi).
Qed.

End ItemFacts.

(** ** Search: what repeated keystrokes do *)

Module SearchSequences.
Import JsString Classifier Async Browser Observations Measures SearchFacts.

Lemma filter_sublist {A} (f : A -> bool) (l : list A) :
  sublist (List.filter f l) l.
Proof.
  induction l as [|x l IH]; cbn [List.filter]; [constructor|].
  destruct (f x); now constructor.
Qed.

Lemma onSearchInput_sublist v s :
  sublist (allVisibleMedia (onSearchInput v s)) (allVisibleMedia s).
Proof.
  unfold onSearchInput. destruct (toLowerCase (trim v)); cbn.
  - reflexivity.
  - apply filter_sublist.
Qed.

Lemma onSearchInput_frame v s :
  mediaCache (onSearchInput v s) = mediaCache s /\
  cache (onSearchInput v s) = cache s /\
  currentPathText (onSearchInput v s) = currentPathText s.
Proof.
  unfold onSearchInput. destruct (toLowerCase (trim v)); repeat split.
Qed.

(** X14.  Keystrokes only ever narrow.  After any series of inputs to the
    search box the list shown, which is also the list the next input
    searches in, is a sub-sequence of the list there was before: an item
    filtered out by one query is not brought back by any later query.
    The caches and the path label are not touched. *)
Theorem search_only_narrows (values : list string) (s : State) :
  sublist (allVisibleMedia (typed values s)) (allVisibleMedia s) /\
  mediaCache (typed values s) = mediaCache s /\
  cache (typed values s) = cache s /\
  currentPathText (typed values s) = currentPathText s /\
  (values <> [] -> gallery (typed values s) = view (allVisibleMedia (typed values s))).
Proof.
  unfold typed. revert s.
  induction values as [|v values IH] using rev_ind; intros s.
  - cbn. repeat split; [reflexivity|congruence].
  - rewrite fold_left_app. cbn [fold_left].
    destruct (IH s) as (Hsub & Hm & Hc & Hp & _).
    set (s1 := fold_left (fun s v => onSearchInput v s) values s) in *.
    destruct (onSearchInput_frame v s1) as (Hm1 & Hc1 & Hp1).
    split; [etrans; [apply onSearchInput_sublist|exact Hsub]|].
    split; [congruence|]. split; [congruence|]. split; [congruence|].
    intros _. unfold onSearchInput.
    destruct (toLowerCase (trim v)); reflexivity.
Qed.

Lemma search_only_narrows_witness :
  sublist
    (allVisibleMedia
       (typed ["do"; ""] (renderGallery [Samples.cat; Samples.dog] initialState)))
    [Samples.cat; Samples.dog] /\
  gallery
    (typed ["do"; ""] (renderGallery [Samples.cat; Samples.dog] initialState))
  = view (allVisibleMedia
            (typed ["do"; ""]
               (renderGallery [Samples.cat; Samples.dog] initialState))).
Proof.
  destruct (search_only_narrows ["do"; ""]
              (renderGallery [Samples.cat; Samples.dog] initialState))
    as (Hsub & _ & _ & _ & Hview).
  split; [exact Hsub|]. apply Hview. discriminate.
Defined.

Lemma append_assoc (a b c : string) : (a +:+ b) +:+ c = a +:+ b +:+ c.
Proof.
  induction a as [|x a IH]; [reflexivity|].
  change (String x ((a +:+ b) +:+ c) = String x (a +:+ b +:+ c)).
  now rewrite IH.
Qed.

Lemma includes_trans (s q2 q1 : string) :
  includes s q2 = true -> includes q2 q1 = true -> includes s q1 = true.
Proof.
  intros H2 H1.
  apply includes_substring in H2 as (pre2 & post2 & ->).
  apply includes_substring in H1 as (pre1 & post1 & ->).
  apply includes_substring. exists (pre2 +:+ pre1), (post1 +:+ post2).
  now rewrite !append_assoc.
Qed.

Lemma filter_filter_implied {A} (f g : A -> bool) (l : list A) :
  (forall x, g x = true -> f x = true) ->
  List.filter g (List.filter f l) = List.filter g l.
Proof.
  intros Himp. induction l as [|x l IH]; [reflexivity|].
  cbn [List.filter]. destruct (f x) eqn:Hf; cbn [List.filter].
  - now rewrite IH.
  - destruct (g x) eqn:Hg; [|exact IH].
    rewrite (Himp x Hg) in Hf. discriminate Hf.
Qed.

(** X15.  Typing on works.  When the query of one input contains the
    query of the input before it (after trimming and lowercasing), as when
    characters are appended, the page ends in the state the later input
    alone would have produced; in particular repeating an input changes
    nothing. *)
Theorem search_refines (v1 v2 : string) (s : State) :
  includes (toLowerCase (trim v2)) (toLowerCase (trim v1)) = true ->
  onSearchInput v2 (onSearchInput v1 s) = onSearchInput v2 s.
Proof.
  intros Hsub. unfold onSearchInput at 1 3.
  destruct (toLowerCase (trim v2)) as [|c2 q2] eqn:Hq2.
  - destruct (toLowerCase (trim v1)) as [|c1 q1] eqn:Hq1;
      [|discriminate Hsub].
    unfold onSearchInput. rewrite Hq1. reflexivity.
  - unfold onSearchInput. destruct (toLowerCase (trim v1)) as [|c1 q1] eqn:Hq1.
    + reflexivity.
    + cbn [renderGallery allVisibleMedia cache mediaCache currentPathText].
      rewrite filter_filter_implied; [reflexivity|].
      intros item Hitem. now apply (includes_trans _ (String c2 q2)).
Qed.

Lemma search_refines_witness :
  onSearchInput "Dog" (onSearchInput " do"
                         (renderGallery [Samples.cat; Samples.dog] initialState))
  = onSearchInput "Dog" (renderGallery [Samples.cat; Samples.dog] initialState).
Proof.
  apply (search_refines " do" "Dog"). reflexivity.
Defined.

End SearchSequences.

(** ** The event loop: what every execution keeps *)

Module EventLoopInvariants.
Import Async Client Browser EventLoop Observations Measures.
Import RunFacts EventLoopFacts.

(** Advancing a call whose first part leaves the state alone. *)
Lemma advance_bind_cases {A B} (q : Proc A) (f : A -> Proc B) :
  Stateless q ->
  forall s,
    let '(s', t, _) := advance s (Async.bind q f) in
    (exists a, fst (advance s (f a)) = (s', t)) \/
    (s' = s /\
     ((exists msg, t = Throw msg) \/
      exists q', Stateless q' /\ suspended q' = true /\ t = Async.bind q' f)).
Proof.
  induction 1 as [a|msg|url k Hk IH|url k Hk IH|ms k Hk IH|c b k Hk IH
                 |l c k Hk IH]; intros s; cbn [Async.bind advance].
  - destruct (advance s (f a)) as [[s' t] ev] eqn:E. left. exists a.
    now rewrite E.
  - right. split; [reflexivity|left; now exists msg].
  - right. split; [reflexivity|right].
    exists (Fetch url k). repeat split. now constructor.
  - right. split; [reflexivity|right].
    exists (FetchJson url k). repeat split. now constructor.
  - right. split; [reflexivity|right].
    exists (SetTimeout ms k). repeat split. now constructor.
  - specialize (IH s).
    destruct (advance s (Async.bind k f)) as [[s' t] ev]. exact IH.
  - specialize (IH s).
    destruct (advance s (Async.bind k f)) as [[s' t] ev]. exact IH.
Qed.

Lemma resume_bind {A B} (q : Proc A) (f : A -> Proc B) a t' :
  Stateless q -> suspended q = true ->
  resume (Async.bind q f) a = Some t' ->
  exists q1, Stateless q1 /\ t' = Async.bind q1 f.
Proof.
  intros Hq Hsusp Hres.
  destruct Hq as [x|msg|url k Hk|url k Hk|ms k Hk|c b k Hk|l c k Hk];
    try discriminate Hsusp; destruct a; try discriminate Hres;
    cbn in Hres; injection Hres as <-; eauto.
Qed.

Lemma rtc_published path media s : rtc update s (published path media s).
Proof.
  unfold published.
  eapply rtc_l; [apply (up_media path media)|].
  apply rtc_once, up_render.
Qed.

Lemma step_tame (c : Config) (i : Input) :
  Forall tame (pool c) ->
  rtc update (st c) (st (step c i)) /\
  currentPathText (st (step c i)) = labelAfter i (currentPathText (st c)) /\
  Forall tame (pool (step c i)).
Proof.
  intros Hpool. destruct i as [path|path container|value|i a];
    cbn [labelAfter].
  - cbn [step].
    destruct (mediaCache (st c) !! path) as [media|] eqn:Hc.
    + rewrite (spawn_show_hit c path media Hc). cbn [st pool].
      split; [|split; [reflexivity|]].
      * eapply rtc_l; [apply (up_announce path)|]. apply rtc_once, up_render.
      * apply Forall_app. split; [exact Hpool|]. repeat constructor.
    + rewrite (spawn_show_miss c path Hc). cbn [st pool].
      split; [|split; [reflexivity|]].
      * apply rtc_once, up_announce.
      * apply Forall_app. split; [exact Hpool|]. constructor; [|constructor].
        right; right; left. exists path. apply inflight_fresh.
  - cbn [step]. unfold spawn, loadAndRenderDir. cbn [advance].
    destruct (cache (st c) !! path) as [items|].
    + cbn. split; [reflexivity|]. split; [reflexivity|].
      apply Forall_app. split; [exact Hpool|]. repeat constructor.
    + change (advance (st c)
                (Async.bind (ghFetch path) (listingStored path container)))
       with (st c, Async.bind (ghFetch path) (listingStored path container),
             [EvFetch (apiUrl path)]).
      cbn. split; [reflexivity|]. split; [reflexivity|].
      apply Forall_app. split; [exact Hpool|]. constructor; [|constructor].
      right; right; right. exists path, container, (ghFetch path).
      repeat split. apply Stateless_ghFetch.
  - cbn [step st pool]. split; [|split; [|exact Hpool]].
    + unfold onSearchInput.
      destruct (JsString.toLowerCase (JsString.trim value));
        apply rtc_once, up_render.
    + unfold onSearchInput.
      destruct (JsString.toLowerCase (JsString.trim value)); reflexivity.
  - cbn [step]. destruct (pool c !! i) as [t|] eqn:Hi;
      [|split; [reflexivity|split; [reflexivity|exact Hpool]]].
    assert (Ht : tame t) by exact (Forall_lookup_1 _ _ _ _ Hpool Hi).
    destruct (resume t a) as [t1|] eqn:Hres;
      [|split; [reflexivity|split; [reflexivity|exact Hpool]]].
    destruct Ht as [->|[(msg & ->)|[(path & Hin)|(path & k & Hload)]]];
      try discriminate Hres.
    + destruct (resume_inflight path t a t1 Hin Hres) as (q & Hq & ->).
      pose proof (advance_bind_stateless path q Hq (st c)) as Hadv.
      destruct (advance (st c) (Async.bind q (storeAndRender path)))
        as [[s' t'] ev].
      cbn [st pool].
      destruct Hadv as [(media & -> & ->)|(-> & [(msg & ->)|Hin'])].
      * split; [apply rtc_published|]. split; [reflexivity|].
        apply Forall_insert; [exact Hpool|now left].
      * split; [reflexivity|]. split; [reflexivity|].
        apply Forall_insert; [exact Hpool|right; left; now exists msg].
      * split; [reflexivity|]. split; [reflexivity|].
        apply Forall_insert; [exact Hpool|right; right; left; now exists path].
    + destruct Hload as (q0 & Hq0 & Hsusp & ->).
      destruct (resume_bind q0 _ a t1 Hq0 Hsusp Hres) as (q & Hq & ->).
      pose proof (advance_bind_cases q (listingStored path k) Hq (st c))
        as Hadv.
      destruct (advance (st c) (Async.bind q (listingStored path k)))
        as [[s' t'] ev].
      cbn [st pool].
      destruct Hadv as [(items & Hdone)|(-> & [(msg & ->)|Hload'])].
      * cbn in Hdone. injection Hdone as <- <-.
        split; [apply rtc_once, up_listing|]. split; [reflexivity|].
        apply Forall_insert; [exact Hpool|now left].
      * split; [reflexivity|]. split; [reflexivity|].
        apply Forall_insert; [exact Hpool|right; left; now exists msg].
      * split; [reflexivity|]. split; [reflexivity|].
        apply Forall_insert; [exact Hpool|].
        right; right; right. now exists path, k.
Qed.

Lemma exec_tame (inputs : list Input) :
  forall c, Forall tame (pool c) ->
            rtc update (st c) (st (exec c inputs)) /\
            Forall tame (pool (exec c inputs)).
Proof.
  induction inputs as [|i inputs IH]; intros c Hpool.
  - split; [reflexivity|exact Hpool].
  - destruct (step_tame c i Hpool) as (Hst & _ & Hpool1).
    destruct (IH (step c i) Hpool1) as [Hrest Hpool2].
    split; [|exact Hpool2]. etrans; [exact Hst|exact Hrest].
Qed.

Lemma exec_label (inputs : list Input) :
  forall c, Forall tame (pool c) ->
            forallb (fun i => negb (isSelection i)) inputs = true ->
            currentPathText (st (exec c inputs)) = currentPathText (st c).
Proof.
  induction inputs as [|i inputs IH]; intros c Hpool Hquiet; [reflexivity|].
  cbn [forallb] in Hquiet. apply andb_prop in Hquiet as [Hi Hquiet].
  destruct (step_tame c i Hpool) as (_ & Hlabel & Hpool1).
  change (exec c (i :: inputs)) with (exec (step c i) inputs).
  rewrite (IH (step c i) Hpool1 Hquiet), Hlabel.
  destruct i; [discriminate Hi|reflexivity..].
Qed.

Lemma update_in_sync s s' : update s s' -> galleryInSync s -> galleryInSync s'.
Proof.
  intros Hup Hs. destruct Hup as [path s|media s|path media s|path items s].
  - right; left. reflexivity.
  - right; right. reflexivity.
  - exact Hs.
  - exact Hs.
Qed.

Lemma update_keeps_entries s s' :
  update s s' ->
  (forall p, is_Some (cache s !! p) -> is_Some (cache s' !! p)) /\
  (forall p, is_Some (mediaCache s !! p) -> is_Some (mediaCache s' !! p)).
Proof.
  intros Hup. destruct Hup as [path s|media s|path media s|path items s];
    split; intros p Hp; cbn; try exact Hp.
  - destruct (decide (path = p)) as [->|Hne].
    + rewrite lookup_insert_eq. eauto.
    + now rewrite lookup_insert_ne.
  - destruct (decide (path = p)) as [->|Hne].
    + rewrite lookup_insert_eq. eauto.
    + now rewrite lookup_insert_ne.
Qed.

(** X16.  In every execution of the page in which no path clicked or
    expanded is the name of an inherited member of the cache objects,
    whatever is clicked, typed or answered and in whatever order, the
    gallery is in step with the search base: it shows the loading
    placeholder, or exactly the list the search box filters (the "no
    media" placeholder when that list is empty). *)
Theorem gallery_in_sync (s0 : State) (inputs : list Input) :
  forallb plainInput inputs = true ->
  galleryInSync s0 ->
  galleryInSync (st (exec (boot s0) inputs)).
Proof.
  intros _ Hs0.
  destruct (exec_tame inputs (boot s0) ltac:(constructor)) as [Hrtc _].
  cbn [boot st] in Hrtc. revert Hs0.
  induction Hrtc as [s|s s1 s2 Hup _ IH]; intros Hs; [exact Hs|].
  apply IH. now apply (update_in_sync s s1).
Qed.

Lemma gallery_in_sync_witness :
  galleryInSync (st (exec (boot initialState) Samples.overtaking)).
Proof.
  apply (gallery_in_sync initialState Samples.overtaking).
  - reflexivity.
  - left. reflexivity.
Defined.

(** X17.  Nothing is ever evicted.  In every execution of the page a path
    that has an entry in the listing cache or in the media cache keeps
    having one. *)
Theorem caches_never_evict (s0 : State) (inputs : list Input) (p : string) :
  (is_Some (cache s0 !! p) ->
   is_Some (cache (st (exec (boot s0) inputs)) !! p)) /\
  (is_Some (mediaCache s0 !! p) ->
   is_Some (mediaCache (st (exec (boot s0) inputs)) !! p)).
Proof.
  destruct (exec_tame inputs (boot s0) ltac:(constructor)) as [Hrtc _].
  cbn [boot st] in Hrtc.
  induction Hrtc as [s|s s1 s2 Hup _ IH]; [split; auto|].
  destruct (update_keeps_entries s s1 Hup) as [Hc Hm].
  destruct IH as [IHc IHm]. split; auto.
Qed.

Lemma caches_never_evict_witness :
  is_Some (cache (st (exec (boot Samples.rootListed) Samples.overtaking)) !! "").
Proof.
  apply (proj1 (caches_never_evict Samples.rootListed Samples.overtaking "")).
  vm_compute. eauto.
Defined.

(** X25.  The path label names the last selection.  In every execution
    of the page, once a file node was clicked and no other was clicked
    after it, the label shows the path of that node, whichever answers
    arrived and whatever the gallery shows. *)
Theorem label_names_last_selection
  (s0 : State) (before after : list Input) (path : string) :
  forallb (fun i => negb (isSelection i)) after = true ->
  currentPathText (st (exec (boot s0) (before ++ ClickFile path :: after)))
  = "/" +:+ path.
Proof.
  intros Hquiet. unfold exec. rewrite fold_left_app. cbn [fold_left].
  destruct (exec_tame before (boot s0) ltac:(constructor)) as [_ Hpool].
  fold (exec (boot s0) before) in *.
  destruct (step_tame (exec (boot s0) before) (ClickFile path) Hpool)
    as (_ & Hlabel & Hpool1).
  fold (exec (step (exec (boot s0) before) (ClickFile path)) after).
  now rewrite (exec_label after _ Hpool1 Hquiet), Hlabel.
Qed.

Lemma label_names_last_selection_witness :
  currentPathText
    (st (exec (boot initialState)
           ([ClickFile "p1"] ++ ClickFile "p2" ::
            [Settle 1 (AFetch (Samples.ok Samples.onlyB));
             Settle 0 (AFetch (Samples.ok Samples.oneImage))])))
  = "/" +:+ "p2".
Proof.
  apply (label_names_last_selection initialState [ClickFile "p1"]
           [Settle 1 (AFetch (Samples.ok Samples.onlyB));
            Settle 0 (AFetch (Samples.ok Samples.oneImage))] "p2").
  reflexivity.
Defined.

Lemma spawn_load_miss c path container :
  cache (st c) !! path = None ->
  spawn c (loadAndRenderDir path container)
  = mkConfig (st c)
      (pool c ++ [Async.bind (ghFetch path) (listingStored path container)])
      (log c ++ [EvFetch (apiUrl path)]).
Proof.
  intros Hmiss. unfold spawn, loadAndRenderDir. cbn [advance].
  rewrite Hmiss. reflexivity.
Qed.

Lemma settle_load_success c i path container r items :
  pool c !! i
  = Some (Async.bind (ghFetch path) (listingStored path container)) ->
  success r items ->
  step c (Settle i (AFetch r))
  = mkConfig (setCache (<[path := items]> (cache (st c))) (st c))
      (<[i := Ret tt]> (pool c)) (log c ++ [EvRenderDir items container]).
Proof.
  intros Hi (res & -> & H200 & Hjson). cbn [step]. rewrite Hi.
  unfold ghFetch. cbn [ghFetchLoop Async.bind resume].
  rewrite H200, Hjson. reflexivity.
Qed.

(** X18.  Loads of the same path are not merged.  When a folder whose
    path is not cached (and not the name of an inherited member of the
    cache object) is expanded twice before any answer arrives, two
    requests are sent; each container is rendered from the answer to its
    own request, and the listing cache ends up with the answer that
    arrived last. *)
Theorem concurrent_loads_both_fetch
  (s : State) (path : string) (c1 c2 : nat) (r1 r2 : FetchResult)
  (items1 items2 : Listing) :
  JsObject.inherited path = false ->
  cache s !! path = None ->
  success r1 items1 -> success r2 items2 ->
  let c := exec (boot s)
             [ExpandFolder path c1; ExpandFolder path c2;
              Settle 0 (AFetch r1); Settle 1 (AFetch r2)] in
  log c = [EvFetch (apiUrl path); EvFetch (apiUrl path);
           EvRenderDir items1 c1; EvRenderDir items2 c2] /\
  cache (st c) !! path = Some items2 /\
  completed c 0 /\ completed c 1.
Proof.
  intros _ Hmiss H1 H2. cbv zeta. unfold exec, boot. cbn [fold_left].
  change (step (mkConfig s [] []) (ExpandFolder path c1))
    with (spawn (mkConfig s [] []) (loadAndRenderDir path c1)).
  rewrite (spawn_load_miss _ path c1) by exact Hmiss.
  cbn [st pool log app].
  change (step ?c (ExpandFolder path c2))
    with (spawn c (loadAndRenderDir path c2)).
  rewrite (spawn_load_miss _ path c2) by exact Hmiss.
  cbn [st pool log app].
  rewrite (settle_load_success _ 0 path c1 r1 items1) by (reflexivity || exact H1).
  rewrite (settle_load_success _ 1 path c2 r2 items2) by (reflexivity || exact H2).
  cbn [st pool log app]. unfold completed. cbn [pool].
  split; [reflexivity|]. split; [|split; reflexivity].
  apply lookup_insert_eq.
Qed.

Lemma concurrent_loads_both_fetch_witness :
  log (exec (boot initialState)
         [ExpandFolder "d" 1; ExpandFolder "d" 2;
          Settle 0 (AFetch (Samples.ok Samples.oneImage));
          Settle 1 (AFetch (Samples.ok Samples.onlyB))])
  = [EvFetch (apiUrl "d"); EvFetch (apiUrl "d");
     EvRenderDir Samples.oneImage 1; EvRenderDir Samples.onlyB 2] /\
  cache (st (exec (boot initialState)
               [ExpandFolder "d" 1; ExpandFolder "d" 2;
                Settle 0 (AFetch (Samples.ok Samples.oneImage));
                Settle 1 (AFetch (Samples.ok Samples.onlyB))])) !! "d"
  = Some Samples.onlyB /\
  completed (exec (boot initialState)
               [ExpandFolder "d" 1; ExpandFolder "d" 2;
                Settle 0 (AFetch (Samples.ok Samples.oneImage));
                Settle 1 (AFetch (Samples.ok Samples.onlyB))]) 0 /\
  completed (exec (boot initialState)
               [ExpandFolder "d" 1; ExpandFolder "d" 2;
                Settle 0 (AFetch (Samples.ok Samples.oneImage));
                Settle 1 (AFetch (Samples.ok Samples.onlyB))]) 1.
Proof.
  apply (concurrent_loads_both_fetch initialState "d" 1 2
           (Samples.ok Samples.oneImage) (Samples.ok Samples.onlyB)
           Samples.oneImage Samples.onlyB).
  - reflexivity.
  - reflexivity.
  - eexists. repeat split.
  - eexists. repeat split.
Defined.

End EventLoopInvariants.

(** ** The tree pane *)

Module TreeFacts.
Import Classifier Async Client Browser Observations Measures Tree.
Import RunFacts ListingCacheFacts.

Section WithComparator.
Variable compare : string -> string -> Z.

Lemma insertByName_perm x l : Permutation (insertByName compare x l) (x :: l).
Proof.
  induction l as [|y l IH]; cbn [insertByName]; [reflexivity|].
  destruct (0 <? byName compare x y); [|reflexivity].
  rewrite IH. apply perm_swap.
Qed.

Lemma sortByName_perm l : Permutation (sortByName compare l) l.
Proof.
  induction l as [|x l IH]; cbn [sortByName]; [reflexivity|].
  now rewrite insertByName_perm, IH.
Qed.

Lemma insertByName_sorted x l :
  consistent compare ->
  Sorted (notAfter compare) l ->
  Sorted (notAfter compare) (insertByName compare x l).
Proof.
  intros (_ & Hanti & _) Hl. induction Hl as [|y l Hl IH Hhd];
    cbn [insertByName]; [repeat constructor|].
  destruct (0 <? byName compare x y) eqn:Hcmp.
  - apply Z.ltb_lt in Hcmp. unfold byName in Hcmp.
    constructor; [exact IH|].
    destruct Hhd as [|z l Hyz]; cbn [insertByName].
    + constructor. unfold notAfter.
      apply Hanti in Hcmp. lia.
    + destruct (0 <? byName compare x z); constructor; [exact Hyz|].
      unfold notAfter. apply Hanti in Hcmp. lia.
  - apply Z.ltb_ge in Hcmp. constructor; [now constructor|].
    constructor. exact Hcmp.
Qed.

Lemma sortByName_sorted l :
  consistent compare -> Sorted (notAfter compare) (sortByName compare l).
Proof.
  intros Hc. induction l as [|x l IH]; cbn [sortByName]; [constructor|].
  now apply insertByName_sorted.
Qed.

End WithComparator.

(** X19.  What a rendered folder shows.  Whatever the comparison, the
    container holds one folder node for each entry of type dir, then one
    file node for each entry of type file, and nothing for entries of any
    other type; a file node is dimmed exactly when its name is not a media
    file name. *)
Theorem renderDirListing_shape
  (compare : string -> string -> Z) (items : Listing) :
  exists dirs files,
    renderDirListing compare items
    = List.map folderNodeOf dirs ++ List.map fileNodeOf files /\
    Permutation dirs (List.filter isDirEntry items) /\
    Permutation files (List.filter isFileEntry items).
Proof.
  exists (sortByName compare (List.filter isDirEntry items)),
         (sortByName compare (List.filter isFileEntry items)).
  split; [reflexivity|]. split; apply sortByName_perm.
Qed.

(** X20.  With a consistent comparison the folder nodes, and after them
    the file nodes, appear in ascending order of name: no node is followed
    in its group by a node whose name compares smaller. *)
Theorem renderDirListing_sorted
  (compare : string -> string -> Z) (items : Listing) :
  consistent compare ->
  exists dirs files,
    renderDirListing compare items
    = List.map folderNodeOf dirs ++ List.map fileNodeOf files /\
    StronglySorted (notAfter compare) dirs /\
    StronglySorted (notAfter compare) files.
Proof.
  intros Hc.
  exists (sortByName compare (List.filter isDirEntry items)),
         (sortByName compare (List.filter isFileEntry items)).
  assert (Htrans : Relations_1.Transitive (notAfter compare)).
  { intros a b c. unfold notAfter. destruct Hc as (_ & _ & Ht). apply Ht. }
  split; [reflexivity|].
  split; apply Sorted_StronglySorted; auto using sortByName_sorted.
Qed.

Lemma byLength_consistent : consistent MoreSamples.byLength.
Proof. unfold consistent, MoreSamples.byLength. repeat split; intros; lia. Qed.

Lemma renderDirListing_sorted_witness :
  exists dirs files,
    renderDirListing MoreSamples.byLength MoreSamples.mixedFolder
    = List.map folderNodeOf dirs ++ List.map fileNodeOf files /\
    StronglySorted (notAfter MoreSamples.byLength) dirs /\
    StronglySorted (notAfter MoreSamples.byLength) files.
Proof.
  apply (renderDirListing_sorted MoreSamples.byLength MoreSamples.mixedFolder).
  apply byLength_consistent.
Defined.

Example renderDirListing_mixed :
  renderDirListing MoreSamples.byLength MoreSamples.mixedFolder
  = [FolderNode "a" "d/a"; FolderNode "zz" "d/zz";
     FileNode (Samples.file "b.png" "d/b.png") false;
     FileNode (Samples.file "notes.txt" "d/notes.txt") true].
Proof. reflexivity. Qed.

Lemma run_ghFetch_once w tree n s path :
  serves w tree ->
  run w n s (ghFetch path)
  = mkRun (Returned (tree path)) s [EvFetch (apiUrl path)] (S n).
Proof.
  intros Hw. destruct (Hw n path) as (res & Hres & H200 & Hjson).
  unfold ghFetch. cbn [ghFetchLoop run]. now rewrite Hres, H200, Hjson.
Qed.

(** A folder node whose children were rendered from the cached listing
    costs nothing more, however often it is clicked. *)
Lemma clicksFolder_loaded compare path container w items :
  forall k n s v,
    cache s !! path = Some items ->
    childNodes v = renderDirListing compare items ->
    label v = (if ariaExpanded v then SayCollapse else SayExpand) ->
    childrenShown v = ariaExpanded v ->
    let '(v', s', evs) := clicksFolder compare path container w k n s v in
    s' = s /\ requests evs = [] /\
    childNodes v' = renderDirListing compare items /\
    ariaExpanded v' = xorb (Nat.odd k) (ariaExpanded v) /\
    label v' = (if ariaExpanded v' then SayCollapse else SayExpand) /\
    childrenShown v' = ariaExpanded v'.
Proof.
  induction k as [|k IH]; intros n s v Hc Hch Hl Hs.
  - cbn. repeat split; auto; now destruct (ariaExpanded v).
  - cbn [clicksFolder].
    assert (Hclick :
      page (clickFolder compare path container w n s v) = s /\
      requests (seen (clickFolder compare path container w n s v)) = [] /\
      childNodes (node (clickFolder compare path container w n s v))
        = renderDirListing compare items /\
      ariaExpanded (node (clickFolder compare path container w n s v))
        = negb (ariaExpanded v) /\
      label (node (clickFolder compare path container w n s v))
        = (if negb (ariaExpanded v) then SayCollapse else SayExpand) /\
      childrenShown (node (clickFolder compare path container w n s v))
        = negb (ariaExpanded v)).
    { unfold clickFolder. destruct (ariaExpanded v) eqn:Hexp.
      - cbn. repeat split. exact Hch.
      - destruct (childNodes v) as [|c0 cs] eqn:Hnodes.
        + rewrite (run_loadAndRenderDir_hit w n s path container items Hc).
          cbn. repeat split.
        + cbn. repeat split. congruence. }
    destruct Hclick as (Hp & Hr & Hn & He & Hlab & Hshown).
    set (c := clickFolder compare path container w n s v) in *.
    specialize (IH (counter c) (page c) (node c)).
    rewrite Hp in IH. specialize (IH Hc Hn).
    rewrite He in IH. specialize (IH Hlab Hshown).
    rewrite Hp.
    destruct (clicksFolder compare path container w k (counter c) s (node c))
      as [[v' s'] evs].
    destruct IH as (-> & Hreq & Hch' & Hexp' & Hl' & Hs').
    rewrite requests_app, Hr, Hreq.
    repeat split; auto.
    rewrite Hexp', Nat.odd_succ, <- Nat.negb_odd.
    destruct (Nat.odd k), (ariaExpanded v); reflexivity.
Qed.

(** X21.  A folder is fetched once.  Against a repository that answers at
    once, any number of successive clicks on a folder node whose path is
    not cached (and not the name of an inherited member of the cache
    object), starting from the node as created, sends exactly one request,
    at the first click; afterwards the node holds the rendering of the
    listing, is expanded exactly after an odd number of clicks with label
    and visibility to match, and the listing is in the cache. *)
Theorem folder_fetched_once
  (compare : string -> string -> Z) (w : World) (tree : string -> Listing)
  (path : string) (container k n : nat) (s : State) :
  serves w tree ->
  JsObject.inherited path = false ->
  cache s !! path = None ->
  let '(v, s', evs) :=
    clicksFolder compare path container w (S k) n s freshFolder in
  requests evs = [EvFetch (apiUrl path)] /\
  childNodes v = renderDirListing compare (tree path) /\
  ariaExpanded v = Nat.even k /\
  label v = (if Nat.even k then SayCollapse else SayExpand) /\
  childrenShown v = Nat.even k /\
  cache s' !! path = Some (tree path).
Proof.
  intros Hw _ Hmiss. cbn [clicksFolder].
  assert (Hfirst :
    clickFolder compare path container w n s freshFolder
    = mkClick (mkFolder true SayCollapse true
                 (renderDirListing compare (tree path)))
        (setCache (<[path := tree path]> (cache s)) s)
        [EvFetch (apiUrl path); EvRenderDir (tree path) container]
        (S n) None).
  { unfold clickFolder, freshFolder. cbn [ariaExpanded childNodes].
    rewrite (run_loadAndRenderDir_miss w n s path container Hmiss). cbv zeta.
    rewrite (run_ghFetch_once w tree n s path Hw). reflexivity. }
  rewrite Hfirst. cbn [counter page node seen].
  set (s1 := setCache (<[path := tree path]> (cache s)) s).
  assert (Hnow : cache s1 !! path = Some (tree path)) by apply lookup_insert_eq.
  pose proof (clicksFolder_loaded compare path container w (tree path) k (S n)
                s1 (mkFolder true SayCollapse true
                      (renderDirListing compare (tree path)))
                Hnow eq_refl eq_refl eq_refl) as Hrest.
  destruct (clicksFolder compare path container w k (S n) s1 _)
    as [[v' s'] evs].
  destruct Hrest as (-> & Hreq & Hch & Hexp & Hl & Hs).
  cbn [ariaExpanded] in Hexp.
  assert (Heven : ariaExpanded v' = Nat.even k).
  { rewrite Hexp, <- Nat.negb_even. now destruct (Nat.even k). }
  unfold requests in *. cbn [app List.filter isRequest]. rewrite Hreq.
  rewrite Hl, Hs, Heven. repeat split; auto.
Qed.

Lemma folder_fetched_once_witness :
  let '(v, s', evs) :=
    clicksFolder MoreSamples.byLength "sub" 4
      (Samples.staticWorld Samples.twoLevels None) 3 0 initialState
      freshFolder in
  requests evs = [EvFetch (apiUrl "sub")] /\
  childNodes v
  = renderDirListing MoreSamples.byLength
      (Samples.treeOf Samples.twoLevels "sub") /\
  ariaExpanded v = Nat.even 2 /\
  label v = (if Nat.even 2 then SayCollapse else SayExpand) /\
  childrenShown v = Nat.even 2 /\
  cache s' !! "sub" = Some (Samples.treeOf Samples.twoLevels "sub").
Proof.
  apply (folder_fetched_once MoreSamples.byLength
           (Samples.staticWorld Samples.twoLevels None)
           (Samples.treeOf Samples.twoLevels) "sub" 4 2 0 initialState).
  - apply ResolutionFacts.staticWorld_serves.
  - reflexivity.
  - reflexivity.
Defined.

(** X22.  A failed load leaves the folder open and empty.  When the
    listing call of the first expansion of a folder throws, its path
    being uncached and not the name of an inherited member of the cache
    object, the node is left expanded, labelled for collapsing and without
    children, the page state is as before, and after collapsing it the
    next expansion asks the network again. *)
Theorem folder_failed_load
  (compare : string -> string -> Z) (w : World) (path : string)
  (container n : nat) (s : State) (msg : string) :
  JsObject.inherited path = false ->
  cache s !! path = None ->
  outcome (run w n s (ghFetch path)) = Threw msg ->
  let c1 := clickFolder compare path container w n s freshFolder in
  node c1 = mkFolder true SayCollapse true [] /\
  page c1 = s /\ failure c1 = Some msg /\
  forall w' n',
    let c2 := clickFolder compare path container w' n' (page c1) (node c1) in
    let c3 := clickFolder compare path container w' n' (page c2) (node c2) in
    node c2 = freshFolder /\ seen c2 = [] /\
    exists rest, seen c3 = EvFetch (apiUrl path) :: rest.
Proof.
  intros _ Hmiss Hthrow. cbv zeta.
  assert (Hfirst :
    clickFolder compare path container w n s freshFolder
    = mkClick (mkFolder true SayCollapse true []) s
        (trace (run w n s (ghFetch path)))
        (sent (run w n s (ghFetch path))) (Some msg)).
  { unfold clickFolder, freshFolder. cbn [ariaExpanded childNodes].
    rewrite (run_loadAndRenderDir_miss w n s path container Hmiss). cbv zeta.
    rewrite Hthrow. cbn [trace final sent outcome].
    unfold ghFetch. now rewrite renderedListing_ghFetchLoop. }
  rewrite Hfirst. cbn [node page failure].
  split; [reflexivity|]. split; [reflexivity|]. split; [reflexivity|].
  intros w' n'. unfold clickFolder at 2 3 4. cbn [ariaExpanded childNodes].
  cbn [node page seen]. split; [reflexivity|]. split; [reflexivity|].
  unfold clickFolder. cbn [ariaExpanded childNodes seen].
  rewrite (run_loadAndRenderDir_miss w' n' s path container Hmiss). cbv zeta.
  destruct (trace_ghFetch_head w' n' s path) as (rest & Hrest).
  destruct (outcome (run w' n' s (ghFetch path))); cbn [trace];
    rewrite Hrest; eexists; reflexivity.
Qed.

Lemma folder_failed_load_witness :
  node (clickFolder MoreSamples.byLength "docs" 1 MoreSamples.offline 0
          initialState freshFolder)
  = mkFolder true SayCollapse true [] /\
  page (clickFolder MoreSamples.byLength "docs" 1 MoreSamples.offline 0
          initialState freshFolder) = initialState.
Proof.
  destruct (folder_failed_load MoreSamples.byLength MoreSamples.offline "docs"
              1 0 initialState "TypeError: Failed to fetch")
    as (Hnode & Hpage & _).
  - reflexivity.
  - reflexivity.
  - reflexivity.
  - split; [exact Hnode|exact Hpage].
Defined.

End TreeFacts.

(** ** Start-up and URLs *)

Module StartupFacts.
Import Classifier Async Client Browser Observations Measures Tree.
Import RunFacts TreeFacts.

(** X23.  The start-up function asks for the root listing exactly as one
    [ghFetch('')] does and stores it nowhere: the page state, both caches
    included, is as before.  When the call returns, the tree gets one
    folder node per root entry of type dir and, only when the root has
    entries of type file, a header followed by one list of all of them;
    when the call throws, so does the start-up function. *)
Theorem init_builds_root
  (compare : string -> string -> Z) (w : World) (n : nat) (s : State) :
  let r := run w n s (init compare) in
  final r = s /\
  trace r = trace (run w n s (ghFetch "")) /\
  match outcome r with
  | Returned nodes =>
      exists items dirs files,
        outcome (run w n s (ghFetch "")) = Returned items /\
        nodes = List.map folderNodeOf dirs ++
                match files with
                | [] => []
                | _ :: _ => [RootHeader; RootFiles files]
                end /\
        Permutation dirs (List.filter isDirEntry items) /\
        Permutation files (List.filter isFileEntry items)
  | Threw msg => outcome (run w n s (ghFetch "")) = Threw msg
  end.
Proof.
  cbv zeta. unfold init. rewrite run_bind. cbv zeta.
  pose proof (run_stateless w _ (Stateless_ghFetch "") n s) as Hfinal.
  destruct (outcome (run w n s (ghFetch ""))) as [items|msg] eqn:Hout.
  - cbn [run prefixed final trace outcome]. rewrite app_nil_r.
    split; [exact Hfinal|]. split; [reflexivity|].
    exists items, (sortByName compare (List.filter isDirEntry items)),
           (sortByName compare (List.filter isFileEntry items)).
    split; [reflexivity|]. split; [reflexivity|].
    split; apply sortByName_perm.
  - cbn [final trace outcome]. repeat split. exact Hfinal.
Qed.

Lemma length_append (a b : string) :
  String.length (a +:+ b) = (String.length a + String.length b)%nat.
Proof.
  induction a as [|x a IH]; [reflexivity|].
  change (String x a +:+ b) with (String x (a +:+ b)).
  cbn [String.length]. now rewrite IH.
Qed.

Lemma append_cancel_r (a b suffix : string) :
  a +:+ suffix = b +:+ suffix -> a = b.
Proof.
  revert b. induction a as [|x a IH]; intros b Heq.
  - destruct b as [|y b]; [reflexivity|].
    apply (f_equal String.length) in Heq. rewrite !length_append in Heq.
    cbn [String.length] in Heq. lia.
  - destruct b as [|y b].
    + apply (f_equal String.length) in Heq. rewrite !length_append in Heq.
      cbn [String.length] in Heq. lia.
    + change (String x (a +:+ suffix) = String y (b +:+ suffix)) in Heq.
      injection Heq as -> Heq. f_equal. now apply IH.
Qed.

Lemma rawUrl_inj (p1 p2 : string) : rawUrl p1 = rawUrl p2 -> p1 = p2.
Proof.
  intros Heq. unfold rawUrl in Heq.
  repeat apply String.app_inj in Heq. exact Heq.
Qed.

Lemma apiUrl_inj (p1 p2 : string) : apiUrl p1 = apiUrl p2 -> p1 = p2.
Proof.
  intros Heq. unfold apiUrl in Heq. repeat apply String.app_inj in Heq.
  now apply append_cancel_r in Heq.
Qed.

(** X24.  Different paths never share a URL: two raw-content URLs, and
    likewise two listing URLs, are equal exactly when the paths they were
    built from are equal. *)
Theorem urls_determine_path (p1 p2 : string) :
  String.eqb (rawUrl p1) (rawUrl p2) = String.eqb p1 p2 /\
  String.eqb (apiUrl p1) (apiUrl p2) = String.eqb p1 p2.
Proof.
  destruct (String.eqb_spec p1 p2) as [->|Hne].
  - now rewrite !String.eqb_refl.
  - split; apply String.eqb_neq; intros Heq; apply Hne.
    + now apply rawUrl_inj.
    + now apply apiUrl_inj.
Qed.

End StartupFacts.
